(** * OpenPhotoFrame: the image scanner, the random picker, the image
      endpoint and the mosaic renderer of [backend/program.py].

    The Python functions are embedded as Rocq functions over an explicit
    model of what they touch: a directory tree (for [os.walk],
    [os.path.isfile] and file contents), a stream of raw random draws (for
    the [random] module), and the application log.  Path manipulation is
    done on strings, as [posixpath] does it. *)

From Stdlib Require Import String Ascii List Arith Bool Lia NArith.
Import ListNotations.

Open Scope string_scope.
Open Scope list_scope.

Notation "a +++ b" := (String.append a b) (at level 60, right associativity).

(** ** Python string primitives *)

Module Str.

(** [str.lower] on the ASCII range.  The allowed extensions are pure
    ASCII and no character outside ASCII lowers to one of their letters,
    so the suffix test of the scanner only depends on this part. *)
Definition lower_ascii (c : ascii) : ascii :=
  let n := nat_of_ascii c in
  if (Nat.leb 65 n && Nat.leb n 90)%bool then ascii_of_nat (n + 32) else c.

Fixpoint lower (s : string) : string :=
  match s with
  | EmptyString => EmptyString
  | String c r => String (lower_ascii c) (lower r)
  end.

(** [s.startswith(p)] *)
Fixpoint startswith (p s : string) : bool :=
  match p, s with
  | EmptyString, _ => true
  | String a p', String b s' => Ascii.eqb a b && startswith p' s'
  | String _ _, EmptyString => false
  end.

(** [s.endswith(suf)] *)
Fixpoint endswith (suf s : string) : bool :=
  String.eqb s suf ||
  match s with
  | EmptyString => false
  | String _ r => endswith suf r
  end.

(** [s.endswith(tuple)] *)
Definition endswith_any (sufs : list string) (s : string) : bool :=
  existsb (fun suf => endswith suf s) sufs.

(** [s.split(sep)] for a one-character separator. *)
Fixpoint split (sep : ascii) (s : string) : list string :=
  match s with
  | EmptyString => [EmptyString]
  | String c r =>
      if Ascii.eqb c sep then EmptyString :: split sep r
      else match split sep r with
           | h :: t => String c h :: t
           | [] => [String c EmptyString]
           end
  end.

(** [sep.join(parts)] *)
Fixpoint join (sep : ascii) (parts : list string) : string :=
  match parts with
  | [] => EmptyString
  | [p] => p
  | p :: rest => p +++ String sep (join sep rest)
  end.

(** [sep in s] *)
Fixpoint contains (sep : ascii) (s : string) : bool :=
  match s with
  | EmptyString => false
  | String c r => Ascii.eqb c sep || contains sep r
  end.

Definition nonempty (s : string) : bool :=
  match s with EmptyString => false | _ => true end.

End Str.

(** ** Exceptions and results *)

Inductive exn : Type :=
| TypeError
| ValueError
| IndexError
| NotFound.

(** How a run ends: with a value, with an exception, or not within the
    part of it that is followed ([Unfinished]). *)
Inductive result (A : Type) : Type :=
| Ok (a : A)
| Raise (e : exn)
| Unfinished.
Arguments Ok {A} a.
Arguments Raise {A} e.
Arguments Unfinished {A}.

(** ** posixpath *)

Module PosixPath.

Definition sep : ascii := "/"%char.
Definition curdir : string := ".".
Definition pardir : string := "..".

Definition isabs (p : string) : bool := Str.startswith "/" p.

(** [os.path.join(a, b)] *)
Definition join (a b : string) : string :=
  if Str.startswith "/" b then b
  else if negb (Str.nonempty a) || Str.endswith "/" a then a +++ b
  else a +++ String sep b.

(** [os.path.join] applied to the elements of a non-empty [parts]. *)
Definition join_all (parts : list string) : string :=
  match parts with
  | [] => EmptyString
  | a :: p => fold_left join p a
  end.

(** One iteration of the loop of [normpath] over the components;
    [rooted] says whether the path had initial slashes. *)
Definition norm_step (rooted : bool) (new_comps : list string) (comp : string)
  : list string :=
  if String.eqb comp "" || String.eqb comp "." then new_comps
  else if negb (String.eqb comp "..")
          || (negb rooted && match new_comps with [] => true | _ => false end)
          || (match new_comps with
              | [] => false
              | _ => String.eqb (last new_comps "") ".."
              end)
       then new_comps ++ [comp]
       else removelast new_comps.

Definition norm_comps (path : string) : list string :=
  fold_left (norm_step (isabs path)) (Str.split sep path) [].

Definition initial_slashes (path : string) : string :=
  if isabs path then
    if Str.startswith "//" path && negb (Str.startswith "///" path)
    then "//" else "/"
  else "".

(** [os.path.normpath(path)] *)
Definition normpath (path : string) : string :=
  if negb (Str.nonempty path) then "."
  else
    let p := initial_slashes path +++ Str.join sep (norm_comps path) in
    if Str.nonempty p then p else ".".

(** [os.path.abspath(path)], with [os.getcwd()] given. *)
Definition abspath (cwd : string) (path : string) : string :=
  normpath (if isabs path then path else join cwd path).

(** [os.path.commonprefix([a, b])] on two lists of components. *)
Fixpoint commonprefix (a b : list string) : list string :=
  match a, b with
  | x :: a', y :: b' => if String.eqb x y then x :: commonprefix a' b' else []
  | _, _ => []
  end.

(** [os.path.relpath(path, start)] *)
Definition relpath (cwd : string) (path start : string) : result string :=
  if negb (Str.nonempty path) then Raise ValueError
  else
    let start_list := filter Str.nonempty (Str.split sep (abspath cwd start)) in
    let path_list := filter Str.nonempty (Str.split sep (abspath cwd path)) in
    let i := length (commonprefix start_list path_list) in
    let rel_list := repeat pardir (length start_list - i) ++ skipn i path_list in
    match rel_list with
    | [] => Ok curdir
    | _ => Ok (join_all rel_list)
    end.

End PosixPath.

(** ** The directory tree

    A node is a regular file with its bytes, a directory with its entries
    in the order [os.scandir] reports them, or an entry that is neither: a
    FIFO, a socket, a device, a symbolic link that leads nowhere.  A
    directory that cannot be listed (permission denied) has
    [listable = false].  [os.walk] sorts an entry under [files] when it is
    not a directory, regular file or not. *)

#[warnings="-register-all"] Inductive node : Type :=
| File (content : string)
| Dir (listable : bool) (entries : list (string * node))
| Other.

Record filesystem : Type := {
  fs_root : node;            (* the directory "/" *)
  fs_cwd : list string       (* the names from "/" to the working directory *)
}.

Definition is_dir (n : node) : bool :=
  match n with Dir _ _ => true | _ => false end.

Fixpoint child (name : string) (es : list (string * node)) : option node :=
  match es with
  | [] => None
  | (k, n) :: rest => if String.eqb k name then Some n else child name rest
  end.

(** The node at a location, given as the names from [n] downward. *)
Fixpoint tree_lookup (n : node) (loc : list string) : option node :=
  match loc with
  | [] => Some n
  | name :: rest =>
      match n with
      | Dir _ es =>
          match child name es with
          | Some c => tree_lookup c rest
          | None => None
          end
      | _ => None
      end
  end.

(** Path resolution by the operating system: each component is looked up
    in the directory reached so far; "." stays, ".." goes to the parent
    (the parent of "/" is "/"). *)
Fixpoint walk_path (root : node) (loc : list string) (comps : list string)
  : option (list string) :=
  match comps with
  | [] => Some loc
  | c :: rest =>
      match tree_lookup root loc with
      | Some (Dir _ es) =>
          if String.eqb c "." then walk_path root loc rest
          else if String.eqb c ".." then walk_path root (removelast loc) rest
          else match child c es with
               | Some _ => walk_path root (loc ++ [c]) rest
               | None => None
               end
      | _ => None
      end
  end.

Definition path_comps (path : string) : list string :=
  filter Str.nonempty (Str.split PosixPath.sep path).

(** The location a path names, if it names anything. *)
Definition os_locate (fs : filesystem) (path : string) : option (list string) :=
  if negb (Str.nonempty path) then None
  else
    let start := if PosixPath.isabs path then [] else fs_cwd fs in
    match walk_path (fs_root fs) start (path_comps path) with
    | Some loc =>
        match tree_lookup (fs_root fs) loc with
        | Some n =>
            if Str.endswith "/" path && negb (is_dir n) then None else Some loc
        | None => None
        end
    | None => None
    end.

Definition os_stat (fs : filesystem) (path : string) : option node :=
  match os_locate fs path with
  | Some loc => tree_lookup (fs_root fs) loc
  | None => None
  end.

(** [os.getcwd()] *)
Definition getcwd (fs : filesystem) : string :=
  String PosixPath.sep (Str.join PosixPath.sep (fs_cwd fs)).

(** [os.path.isfile(path)] *)
Definition isfile (fs : filesystem) (path : string) : bool :=
  match os_stat fs path with
  | Some (File _) => true
  | _ => false
  end.

Definition dirnames (es : list (string * node)) : list string :=
  map fst (filter (fun e => is_dir (snd e)) es).

Definition filenames (es : list (string * node)) : list string :=
  map fst (filter (fun e => negb (is_dir (snd e))) es).

(** [os.walk]'s generator below a directory already reached as [top]:
    a failing [scandir] yields nothing for that directory (no [onerror]
    is given); otherwise the directory's triple comes first, then the
    triples of each subdirectory, reached as [join(top, dirname)]. *)
Fixpoint walk_node (n : node) (top : string) {struct n}
  : list (string * list string * list string) :=
  match n with
  | Dir listable es =>
      if listable then
        (top, dirnames es, filenames es) ::
        flat_map (fun e =>
                    match e with
                    | (name, c) =>
                        if is_dir c then walk_node c (PosixPath.join top name)
                        else []
                    end) es
      else []
  | _ => []
  end.

(** ** The state the handlers thread: raw random draws and the log *)

Inductive level : Type := INFO | ERROR.

Inductive message : Type :=
| ImageDirNotSet                                   (* line 15 *)
| UsingImageDir (d : string)                       (* line 17 *)
| FoundImages (n : nat) (directory : option string)   (* line 33 *)
| NoImagesFound (directory : option string).       (* line 41 *)

Record world : Type := {
  draws : nat -> nat;                (* the raw draws still to come *)
  log : list (level * message)
}.

Definition M (A : Type) : Type := world -> result A * world.

Definition ret {A} (a : A) : M A := fun w => (Ok a, w).

Definition raise {A} (e : exn) : M A := fun w => (Raise e, w).

Definition unfinished {A} : M A := fun w => (Unfinished, w).

Definition bind {A B} (m : M A) (k : A -> M B) : M B :=
  fun w =>
    match m w with
    | (Ok a, w') => k a w'
    | (Raise e, w') => (Raise e, w')
    | (Unfinished, w') => (Unfinished, w')
    end.

Notation "x <- m ;; k" := (bind m (fun x => k))
  (at level 61, m at next level, right associativity).
Notation "m ;;; k" := (bind m (fun _ => k))
  (at level 61, right associativity).

Definition lift {A} (r : result A) : M A := fun w => (r, w).

Definition logger (l : level) (m : message) : M unit :=
  fun w => (Ok tt, {| draws := draws w; log := log w ++ [(l, m)] |}).

(** A [for] loop whose body updates an accumulator. *)
Fixpoint for_each {A B} (l : list A) (acc : B) (body : B -> A -> M B) : M B :=
  match l with
  | [] => ret acc
  | x :: rest => acc' <- body acc x ;; for_each rest acc' body
  end.

(** [os.walk(top)]: [os.fspath] rejects [None] with a [TypeError]. *)
Definition os_walk (fs : filesystem) (top : option string)
  : M (list (string * list string * list string)) :=
  match top with
  | None => raise TypeError
  | Some top =>
      ret (match os_stat fs top with
           | Some n => walk_node n top
           | None => []
           end)
  end.

(** ** The random module *)

Module Random.

(** [_randbelow(n)]: the next raw draw, reduced to the range from 0 to
    [n - 1]; equally likely raw draws give equally likely results. *)
Definition randbelow (n : nat) : M nat :=
  fun w => (Ok (draws w 0 mod n),
            {| draws := fun i => draws w (S i); log := log w |}).

(** [random.randint(a, b)] *)
Definition randint (a b : nat) : M nat :=
  r <- randbelow (b - a + 1) ;; ret (a + r).

Fixpoint set_nth {A} (i : nat) (x : A) (l : list A) : list A :=
  match l, i with
  | [], _ => []
  | _ :: t, O => x :: t
  | h :: t, S i' => h :: set_nth i' x t
  end.

(** The selection loop of [random.sample] on its pool: with [m]
    candidates left in the front of [pool], take the one at a random
    index and move the last candidate into the vacancy. *)
Fixpoint sample_loop {A} (todo m : nat) (pool : list A) : M (list A) :=
  match todo with
  | O => ret []
  | S todo' =>
      j <- randbelow m ;;
      match nth_error pool j, nth_error pool (m - 1) with
      | Some x, Some y =>
          rest <- sample_loop todo' (m - 1) (set_nth j y pool) ;;
          ret (x :: rest)
      | _, _ => raise IndexError
      end
  end.

(** The pick of the other branch of [random.sample] (the inner loop
    [j = randbelow(n); while j in selected: j = randbelow(n)]): draws are
    taken until one is not among the positions already selected.  The
    loop has no bound in the code; [fuel] is the number of rejected draws
    it is followed for. *)
Fixpoint fresh_index (fuel n : nat) (selected : list nat) {struct fuel} : M nat :=
  j <- randbelow n ;;
  if existsb (Nat.eqb j) selected then
    match fuel with
    | O => unfinished
    | S fuel' => fresh_index fuel' n selected
    end
  else ret j.

(** The selection loop of [random.sample] with a set of selected
    positions. *)
Fixpoint sample_set_loop {A} (fuel todo n : nat) (population : list A)
  (selected : list nat) : M (list A) :=
  match todo with
  | O => ret []
  | S todo' =>
      j <- fresh_index fuel n selected ;;
      match nth_error population j with
      | Some x =>
          rest <- sample_set_loop fuel todo' n population (j :: selected) ;;
          ret (x :: rest)
      | None => raise IndexError
      end
  end.

(** [setsize]: 21, plus [4 ** ceil(log(k * 3, 4))] when [k > 5]. *)
Definition setsize (k : nat) : nat :=
  21 + (if Nat.ltb 5 k then 4 ^ ((Nat.log2_up (k * 3) + 1) / 2) else 0).

(** [random.sample(population, k)]: the selection on a pool for a
    population of at most [setsize] entries, the selection with a set of
    positions above. *)
Definition sample {A} (fuel : nat) (population : list A) (k : nat) : M (list A) :=
  let n := List.length population in
  if Nat.ltb n k then raise ValueError
  else if Nat.leb n (setsize k) then sample_loop k n population
  else sample_set_loop fuel k n population [].

End Random.

(** ** The Flask application *)

Inductive body : Type :=
| JsonArray (items : list string)
| FileBytes (content : string).

Inductive response : Type :=
| Reply (status : nat) (b : body)
| ErrorPage (status : nat)
| NoAnswer.                      (* the view has not returned *)

Definition jsonify (items : list string) : response := Reply 200 (JsonArray items).

(** The module globals: [IMAGE_DIR], and Flask's
    [url_for('get_image', filename=_, _external=True)], which is given by
    the routing table and the request's host. *)
Record application : Type := {
  IMAGE_DIR : option string;
  url_for : string -> string
}.

Definition truthy (v : option string) : bool :=
  match v with
  | Some s => Str.nonempty s
  | None => false
  end.

(** Lines 13-17: reading the variable when the module is loaded. *)
Definition load_IMAGE_DIR (getenv : string -> option string)
  : option string * list (level * message) :=
  let image_dir := getenv "IMAGE_DIR" in
  if negb (truthy image_dir) then (image_dir, [(ERROR, ImageDirNotSet)])
  else (image_dir, [(INFO, UsingImageDir (match image_dir with
                                          | Some d => d
                                          | None => ""
                                          end))]).

Definition allowed_extensions : list string :=
  [".jpg"; ".jpeg"; ".png"; ".gif"; ".bmp"; ".webp"].

Definition is_image (f : string) : bool :=
  Str.endswith_any allowed_extensions (Str.lower f).

(** The [start] of [relpath]: [None] stands for the current directory. *)
Definition start_or_curdir (start : option string) : string :=
  match start with Some d => d | None => PosixPath.curdir end.

(** Lines 29-32: one file name of a directory reached as [root]. *)
Definition add_image (fs : filesystem) (directory : option string) (root : string)
  (image_files : list string) (f : string) : M (list string) :=
  if is_image f then
    rel_path <- lift (PosixPath.relpath (getcwd fs) (PosixPath.join root f)
                                        (start_or_curdir directory)) ;;
    ret (image_files ++ [rel_path])
  else ret image_files.

(** Lines 28-32: the inner loop, for one triple of the walk. *)
Definition add_images (fs : filesystem) (directory : option string)
  (image_files : list string) (triple : string * list string * list string)
  : M (list string) :=
  match triple with
  | (root, _, files) => for_each files image_files (add_image fs directory root)
  end.

(** Lines 20-34. *)
Definition list_image_files (fs : filesystem) (directory : option string)
  : M (list string) :=
  walk <- os_walk fs directory ;;
  image_files <- for_each walk [] (add_images fs directory) ;;
  logger INFO (FoundImages (List.length image_files) directory) ;;;
  ret image_files.

(** Lines 37-52; [fuel] is the one of [Random.sample]. *)
Definition random_images (fuel : nat) (fs : filesystem) (app : application)
  : M response :=
  images <- list_image_files fs (IMAGE_DIR app) ;;
  match images with
  | [] =>
      logger ERROR (NoImagesFound (IMAGE_DIR app)) ;;;
      ret (jsonify [])
  | _ =>
      count <- Random.randint 1 5 ;;
      selected <- (if Nat.leb count (List.length images)
                   then Random.sample fuel images count
                   else ret images) ;;
      let image_urls := map (url_for app) selected in
      ret (jsonify image_urls)
  end.

(** Modelled from the spec: Flask's [send_from_directory] and the
    [safe_join] it relies on are not part of this repository.  Section 4.3
    has the primitive resolve the relative path against the root directory,
    answer not-found for a path that escapes the root or names no file, and
    stream the file's bytes otherwise.  The path is normalised as text first
    and refused when it is absolute or still begins with a parent
    reference. *)
Definition safe_join (directory filename : string) : option string :=
  let directory := if Str.nonempty directory then directory else "." in
  let filename :=
    if Str.nonempty filename then PosixPath.normpath filename else filename in
  if PosixPath.isabs filename
     || String.eqb filename ".."
     || Str.startswith "../" filename
  then None
  else Some (PosixPath.join directory filename).

(** Modelled from the spec: streaming the bytes of the file a path
    names (Flask's [send_file], not part of this repository). *)
Definition send_file (fs : filesystem) (path_str : string) : M response :=
  match os_stat fs path_str with
  | Some (File content) => ret (Reply 200 (FileBytes content))
  | _ => raise NotFound
  end.

(** Modelled from the spec: see [safe_join]. *)
Definition send_from_directory (fs : filesystem) (directory : option string)
  (path : string) : M response :=
  match directory with
  | None => raise TypeError
  | Some directory =>
      match safe_join directory path with
      | None => raise NotFound
      | Some path_str =>
          if isfile fs path_str then send_file fs path_str else raise NotFound
      end
  end.

(** Lines 55-57. *)
Definition get_image (fs : filesystem) (app : application) (filename : string)
  : M response :=
  send_from_directory fs (IMAGE_DIR app) filename.

(** Flask's dispatch of a view function: a [NotFound] becomes a 404 page,
    any other exception that leaves the view a 500 page. *)
Definition dispatch (view : M response) : world -> response * world :=
  fun w =>
    match view w with
    | (Ok r, w') => (r, w')
    | (Raise NotFound, w') => (ErrorPage 404, w')
    | (Raise _, w') => (ErrorPage 500, w')
    | (Unfinished, w') => (NoAnswer, w')
    end.

(** ** The layout renderer (the script of [FRONTEND_HTML], lines 90-184) *)

Module Renderer.

Record rect : Type := {
  left : string;
  top : string;
  width : string;
  height : string
}.

Definition R (l t w h : string) : rect :=
  {| left := l; top := t; width := w; height := h |}.

(** The object [layouts]: a property lookup is [None] for [undefined]. *)
Definition layouts (count : nat) : option (list (list rect)) :=
  match count with
  | 1 => Some [ [ R "0%" "0%" "100%" "100%" ] ]
  | 2 => Some [ [ R "0%" "0%" "50%" "100%";
                  R "50%" "0%" "50%" "100%" ];
                [ R "0%" "0%" "100%" "50%";
                  R "0%" "50%" "100%" "50%" ] ]
  | 3 => Some [ [ R "0%" "0%" "60%" "100%";
                  R "60%" "0%" "40%" "50%";
                  R "60%" "50%" "40%" "50%" ];
                [ R "0%" "0%" "100%" "60%";
                  R "0%" "60%" "50%" "40%";
                  R "50%" "60%" "50%" "40%" ] ]
  | 4 => Some [ [ R "0%" "0%" "50%" "50%";
                  R "50%" "0%" "50%" "50%";
                  R "0%" "50%" "50%" "50%";
                  R "50%" "50%" "50%" "50%" ] ]
  | 5 => Some [ [ R "0%" "0%" "50%" "50%";
                  R "50%" "0%" "50%" "50%";
                  R "0%" "50%" "33.33%" "50%";
                  R "33.33%" "50%" "33.33%" "50%";
                  R "66.66%" "50%" "33.33%" "50%" ];
                [ R "0%" "0%" "100%" "60%";
                  R "0%" "60%" "25%" "40%";
                  R "25%" "60%" "25%" "40%";
                  R "50%" "60%" "25%" "40%";
                  R "75%" "60%" "25%" "40%" ] ]
  | _ => None
  end.

(** What the container holds: the placeholder paragraph or positioned
    images. *)
Inductive element : Type :=
| Paragraph (style text : string)
| Image (src : string) (pos : rect).

Inductive js_error : Type :=
| NetworkError      (* fetch rejected *)
| SyntaxError       (* response.json() rejected *)
| JsTypeError.      (* a property of undefined was read *)

Record page : Type := {
  container : list element;
  console : list js_error       (* the arguments of console.error *)
}.

(** How the two awaits of lines 151-152 end. *)
Inductive fetched : Type :=
| FetchRejected
| JsonRejected
| Parsed (imageUrls : list string).

(** [Math.random()] is [random mod 2^53] over [2^53]; this is
    [Math.floor(Math.random() * len)]. *)
Definition random_index (random : N) (len : nat) : nat :=
  N.to_nat ((random mod 2 ^ 53) * N.of_nat len / 2 ^ 53).

(** [layouts[count] || layouts[1]] *)
Definition templates_for (count : nat) : option (list (list rect)) :=
  match layouts count with
  | Some t => Some t
  | None => layouts 1
  end.

(** Lines 160-161: the layout the renderer ends up with. *)
Definition choose_layout (count : nat) (random : N) : option (list rect) :=
  match templates_for count with
  | Some templates => nth_error templates (random_index random (List.length templates))
  | None => None
  end.

(** The [forEach] of lines 166-175, from [index] on: reading [pos.left]
    of a missing slot throws, which leaves the loop. *)
Fixpoint place (layout : option (list rect)) (index : nat) (urls : list string)
  (shown : list element) : list element * option js_error :=
  match urls with
  | [] => (shown, None)
  | url :: rest =>
      match layout with
      | None => (shown, Some JsTypeError)
      | Some l =>
          match nth_error l index with
          | None => (shown, Some JsTypeError)
          | Some pos => place layout (S index) rest (shown ++ [Image url pos])
          end
      end
  end.

Definition console_error (e : js_error) (pg : page) : page :=
  {| container := container pg; console := console pg ++ [e] |}.

Definition no_images : element :=
  Paragraph "color: white; text-align:center;" "No images found".

(** Lines 149-179, given how the fetch ended and the value [Math.random]
    returns. *)
Definition fetchAndDisplayImages (outcome : fetched) (random : N) (pg : page)
  : page :=
  match outcome with
  | FetchRejected => console_error NetworkError pg
  | JsonRejected => console_error SyntaxError pg
  | Parsed imageUrls =>
      let count := List.length imageUrls in
      if Nat.eqb count 0 then
        {| container := [no_images]; console := console pg |}
      else
        match templates_for count with
        | None => console_error JsTypeError pg
        | Some templates =>
            let layout :=
              nth_error templates (random_index random (List.length templates)) in
            match place layout 0 imageUrls [] with
            | (shown, None) => {| container := shown; console := console pg |}
            | (shown, Some err) =>
                {| container := shown; console := console pg ++ [err] |}
            end
        end
  end.

Inductive phase : Type := Idle | Fetching.

Record renderer : Type := {
  state : phase;
  view : page;
  interval : bool          (* the timer of line 183 is registered *)
}.

(** Lines 182-183: the first call is under way and the timer is set. *)
Definition loaded : renderer :=
  {| state := Fetching;
     view := {| container := []; console := [] |};
     interval := true |}.

(** The timer fires: a fetch starts. *)
Definition on_timer (r : renderer) : renderer :=
  if interval r
  then {| state := Fetching; view := view r; interval := interval r |}
  else r.

(** The pending call runs to its end. *)
Definition on_settled (outcome : fetched) (random : N) (r : renderer) : renderer :=
  {| state := Idle;
     view := fetchAndDisplayImages outcome random (view r);
     interval := interval r |}.

Definition is_failure (outcome : fetched) : bool :=
  match outcome with
  | Parsed _ => false
  | _ => true
  end.

Definition is_message (e : element) : bool :=
  match e with
  | Paragraph _ _ => true
  | Image _ _ => false
  end.

(** The only layout of the table entry for one image. *)
Definition full_screen : list rect := [ R "0%" "0%" "100%" "100%" ].

(** The reading of C8 as it is written: after a failed fetch or parse the
    renderer is idle, the container shows a message, and the timer is
    still set. *)
Definition failure_shows_a_message : Prop :=
  forall (r : renderer) (outcome : fetched) (random : N),
    state r = Fetching -> interval r = true -> is_failure outcome = true ->
    let r' := on_settled outcome random r in
    state r' = Idle /\
    existsb is_message (container (view r')) = true /\
    interval r' = true.

End Renderer.

(** ** Well-formed trees and the words of the specification *)

(** A name a directory entry can have. *)
Definition valid_name (s : string) : bool :=
  Str.nonempty s && negb (Str.contains "/" s)
  && negb (String.eqb s ".") && negb (String.eqb s "..").

Fixpoint distinct (l : list string) : bool :=
  match l with
  | [] => true
  | x :: r => negb (existsb (String.eqb x) r) && distinct r
  end.

(** Every directory has valid, pairwise distinct entry names. *)
Fixpoint wf_node (n : node) : bool :=
  match n with
  | Dir _ es =>
      distinct (map fst es) &&
      forallb (fun e => match e with
                        | (name, c) => valid_name name && wf_node c
                        end) es
  | _ => true
  end.


(** Every entry below is a regular file or a directory. *)
Fixpoint all_regular (n : node) : bool :=
  match n with
  | File _ => true
  | Dir _ es => forallb (fun e => match e with (_, c) => all_regular c end) es
  | Other => false
  end.




(** The relative paths [os.walk] leads the scanner to, as lists of names
    below [prefix], in the order of the walk. *)
Fixpoint scan_names (n : node) (prefix : list string) {struct n}
  : list (list string) :=
  match n with
  | Dir listable es =>
      if listable then
        map (fun f => prefix ++ [f]) (filter is_image (filenames es)) ++
        flat_map (fun e =>
                    match e with
                    | (name, c) =>
                        if is_dir c then scan_names c (prefix ++ [name]) else []
                    end) es
      else []
  | _ => []
  end.

(** What [join] puts between its arguments. *)
Definition joint (a : string) : string :=
  if negb (Str.nonempty a) || Str.endswith "/" a then "" else "/".

(** The components of [abspath(path)], as [relpath] takes them. *)
Definition abs_list (cwd path : string) : list string :=
  filter Str.nonempty (Str.split PosixPath.sep (PosixPath.abspath cwd path)).

(** A component [normpath] keeps: not empty and without separator. *)
Definition good_comp (c : string) : Prop :=
  c <> "" /\ Str.contains "/" c = false.

(** The world after one more log record. *)
Definition logged (w : world) (entry : level * message) : world :=
  {| draws := draws w; log := log w ++ [entry] |}.

(** A component that names an entry: not empty, no separator, and neither
    "." nor "..". *)
Definition plain (c : string) : Prop :=
  good_comp c /\ c <> "." /\ c <> "..".

(** Going by the components from a directory: does the path climb above
    it?  [depth] is how far below the directory one is. *)
Fixpoint climbs_out (depth : nat) (comps : list string) : bool :=
  match comps with
  | [] => false
  | c :: rest =>
      if String.eqb c "" || String.eqb c "." then climbs_out depth rest
      else if String.eqb c ".." then
             match depth with
             | O => true
             | S d => climbs_out d rest
             end
           else climbs_out (S depth) rest
  end.

(** A request path escapes the root when it is absolute or climbs above
    the root on the way. *)
Definition escapes_root (filename : string) : bool :=
  PosixPath.isabs filename || climbs_out 0 (Str.split "/" filename).

(** The directory [safe_join] joins onto: the current directory stands in
    for an empty one. *)
Definition root_or_curdir (directory : string) : string :=
  if Str.nonempty directory then directory else ".".

(** ** A sample installation *)

Definition sample_pics : node :=
  Dir true [ ("a.PNG", File "A");
             ("notes.txt", File "n");
             ("trip", Dir true [ ("b.jpg", File "B"); ("c.webp", File "C") ]);
             ("d.gif", File "D") ].

Definition sample_fs : filesystem :=
  {| fs_root :=
       Dir true [ ("etc", Dir true [ ("passwd", File "root:x:0:0") ]);
                  ("srv", Dir true [ ("pics", sample_pics);
                                     ("empty", Dir true []);
                                     ("locked", Dir false [ ("e.png", File "E") ]) ]) ];
     fs_cwd := ["srv"] |}.

Definition sample_app : application :=
  {| IMAGE_DIR := Some "/srv/pics";
     url_for := fun filename => "http://localhost:5000/images/" +++ filename |}.

Definition sample_world : world :=
  {| draws := fun i => 7 * i + 3; log := [] |}.

(** The variable [name] taken out of an environment. *)
Definition unset (name : string) (getenv : string -> option string)
  : string -> option string :=
  fun k => if String.eqb k name then None else getenv k.


(** The random source keeps leaving every set of fewer than [k] of the
    [n] positions: whatever was drawn, and whichever positions [sel] are
    taken, a later draw gives a position outside [sel]. *)
Definition keeps_drawing (n k : nat) (w : world) : Prop :=
  forall i (sel : list nat),
    List.length sel < k -> exists t, i <= t /\ ~ In (draws w t mod n) sel.

(** A root directory with exactly three .png files. *)
Definition album_fs : filesystem :=
  {| fs_root :=
       Dir true [ ("album", Dir true [ ("one.png", File "1");
                                       ("two.png", File "2");
                                       ("three.png", File "3") ]) ];
     fs_cwd := [] |}.

(** A directory of twenty-two images, one more than [random.sample]
    selects from on a pool, and a random source that repeats one raw
    draw. *)
Definition crowd_names : list string :=
  ["01"; "02"; "03"; "04"; "05"; "06"; "07"; "08"; "09"; "10"; "11";
   "12"; "13"; "14"; "15"; "16"; "17"; "18"; "19"; "20"; "21"; "22"].

Definition crowd_fs : filesystem :=
  {| fs_root :=
       Dir true [ ("crowd",
                   Dir true (map (fun s => (s +++ ".jpg", File s)) crowd_names)) ];
     fs_cwd := [] |}.

Definition crowd_app : application :=
  {| IMAGE_DIR := Some "/crowd"; url_for := url_for sample_app |}.


(** A directory with an image file and a FIFO that has an image's
    name. *)
Definition fifo_fs : filesystem :=
  {| fs_root :=
       Dir true [ ("pics", Dir true [ ("a.png", File "A");
                                      ("pipe.png", Other) ]) ];
     fs_cwd := [] |}.

Definition fifo_app : application :=
  {| IMAGE_DIR := Some "pics"; url_for := url_for sample_app |}.

(** ** The claims read as they are written *)



(** The reading of C10 as it is written: a request for a scanned path is
    answered with a file's bytes. *)
Definition scanned_paths_are_all_served : Prop :=
  forall (fs : filesystem) (app : application) (d : string) (w w1 : world)
         (images : list string) (p : string),
    wf_node (fs_root fs) = true ->
    IMAGE_DIR app = Some d ->
    list_image_files fs (Some d) w = (Ok images, w1) ->
    In p images ->
    exists content,
      forall w2,
        dispatch (get_image fs app p) w2 = (Reply 200 (FileBytes content), w2).

(** ** Words for the further properties *)


(** The images of [urls], each on the slot of [layout] with its index. *)
Definition positioned (urls : list string) (layout : list Renderer.rect)
  : list Renderer.element :=
  map (fun p => Renderer.Image (fst p) (snd p)) (combine urls layout).

(** * Lemmas *)

(** ** Strings *)

Section StringFacts.

Variable sep : ascii.

Lemma append_assoc (a b c : string) : (a +++ b) +++ c = a +++ (b +++ c).
Proof. induction a; simpl; congruence. Qed.

Lemma append_empty_r (a : string) : a +++ "" = a.
Proof. induction a; simpl; congruence. Qed.

Lemma split_not_nil (s : string) : Str.split sep s <> [].
Proof.
  induction s as [|c r IH]; simpl; [discriminate|].
  destruct (Ascii.eqb c sep); [discriminate|].
  destruct (Str.split sep r); discriminate.
Qed.

Lemma split_cons_other (c : ascii) (r : string) :
  Ascii.eqb c sep = false ->
  exists h t, Str.split sep r = h :: t /\ Str.split sep (String c r) = String c h :: t.
Proof.
  intros Hc. simpl. rewrite Hc.
  destruct (Str.split sep r) as [|h t] eqn:E.
  - exfalso. exact (split_not_nil r E).
  - exists h, t. split; reflexivity.
Qed.

Lemma split_no_sep (s : string) :
  Str.contains sep s = false -> Str.split sep s = [s].
Proof.
  induction s as [|c r IH]; simpl; intros H; [reflexivity|].
  apply orb_false_iff in H. destruct H as [Hc Hr].
  rewrite Hc, (IH Hr). reflexivity.
Qed.

Lemma split_app_sep (a b : string) :
  Str.contains sep a = false ->
  Str.split sep (a +++ String sep b) = a :: Str.split sep b.
Proof.
  induction a as [|c r IH]; simpl; intros H.
  - rewrite Ascii.eqb_refl. reflexivity.
  - apply orb_false_iff in H. destruct H as [Hc Hr].
    rewrite Hc, (IH Hr). reflexivity.
Qed.

Lemma split_join (l : list string) :
  l <> [] -> Forall (fun p => Str.contains sep p = false) l ->
  Str.split sep (Str.join sep l) = l.
Proof.
  induction l as [|p rest IH]; intros Hne Hall; [congruence|].
  inversion Hall as [|? ? Hp Hrest]; subst.
  destruct rest as [|q rest'].
  - simpl. apply split_no_sep; assumption.
  - change (Str.join sep (p :: q :: rest'))
      with (p +++ String sep (Str.join sep (q :: rest'))).
    rewrite split_app_sep by assumption.
    rewrite IH; [reflexivity|discriminate|assumption].
Qed.


Lemma split_parts_no_sep (s : string) :
  Forall (fun p => Str.contains sep p = false) (Str.split sep s).
Proof.
  induction s as [|c r IH]; simpl.
  - constructor; [reflexivity|constructor].
  - destruct (Ascii.eqb c sep) eqn:Hc.
    + constructor; [reflexivity|assumption].
    + destruct (Str.split sep r) as [|h t] eqn:E.
      * constructor; [simpl; rewrite Hc; reflexivity|constructor].
      * inversion IH; subst. constructor; [simpl; rewrite Hc; assumption|assumption].
Qed.

Lemma split_app_general (a b : string) :
  Str.split sep (a +++ String sep b)
  = Str.split sep a ++ Str.split sep b.
Proof.
  induction a as [|c r IH].
  - simpl. rewrite Ascii.eqb_refl. reflexivity.
  - change ((String c r) +++ String sep b) with (String c (r +++ String sep b)).
    destruct (Ascii.eqb c sep) eqn:Hc.
    + simpl. rewrite Hc, IH. reflexivity.
    + destruct (split_cons_other c r Hc) as (h & t & E1 & E2).
      destruct (split_cons_other c (r +++ String sep b) Hc) as (h' & t' & E1' & E2').
      rewrite E2, E2'. rewrite IH, E1 in E1'. simpl in E1'.
      inversion E1'; subst. reflexivity.
Qed.

End StringFacts.

Lemma endswith_nil (suf : string) :
  Str.endswith suf "" = String.eqb "" suf.
Proof. unfold Str.endswith. apply orb_false_r. Qed.

Lemma endswith_cons (suf : string) (c : ascii) (r : string) :
  Str.endswith suf (String c r)
  = String.eqb (String c r) suf || Str.endswith suf r.
Proof. reflexivity. Qed.

Lemma endswith_iff (suf s : string) :
  Str.endswith suf s = true <-> exists pre, s = pre +++ suf.
Proof.
  induction s as [|c r IH].
  - rewrite endswith_nil. split.
    + intros H. apply String.eqb_eq in H. exists "". subst. reflexivity.
    + intros [pre H]. destruct pre; simpl in H; [|discriminate].
      subst. apply String.eqb_refl.
  - rewrite endswith_cons, orb_true_iff, IH. split.
    + intros [H|[pre H]].
      * apply String.eqb_eq in H. exists "". simpl. congruence.
      * exists (String c pre). simpl. congruence.
    + intros [pre H]. destruct pre as [|c' pre'].
      * left. simpl in H. subst. apply String.eqb_refl.
      * right. simpl in H. inversion H; subst. exists pre'. reflexivity.
Qed.

Lemma startswith_iff (p s : string) :
  Str.startswith p s = true <-> exists r, s = p +++ r.
Proof.
  revert s. induction p as [|a p IH]; intros s; simpl.
  - split; [intros _; exists s; reflexivity|reflexivity].
  - destruct s as [|b s'].
    + split; [discriminate|intros [r H]; discriminate].
    + rewrite andb_true_iff, IH. split.
      * intros [Hab [r H]]. apply Ascii.eqb_eq in Hab. exists r. congruence.
      * intros [r H]. inversion H; subst. split; [apply Ascii.eqb_refl|].
        exists r. reflexivity.
Qed.

Lemma join_snoc (sep : ascii) (l : list string) (e : string) :
  l <> [] -> Str.join sep (l ++ [e]) = Str.join sep l +++ String sep e.
Proof.
  induction l as [|p rest IH]; intros Hne; [congruence|].
  destruct rest as [|q rest'].
  - reflexivity.
  - change (Str.join sep ((p :: q :: rest') ++ [e]))
      with (p +++ String sep (Str.join sep ((q :: rest') ++ [e]))).
    rewrite IH by discriminate.
    change (Str.join sep (p :: q :: rest'))
      with (p +++ String sep (Str.join sep (q :: rest'))).
    rewrite append_assoc. reflexivity.
Qed.

Lemma lower_app (a b : string) :
  Str.lower (a +++ b) = Str.lower a +++ Str.lower b.
Proof. induction a; simpl; congruence. Qed.





(** ** Paths *)

Lemma contains_app (c : ascii) (a b : string) :
  Str.contains c (a +++ b) = Str.contains c a || Str.contains c b.
Proof.
  induction a as [|x a IH]; simpl; [reflexivity|].
  rewrite IH. apply orb_assoc.
Qed.

Lemma valid_name_facts (f : string) :
  valid_name f = true ->
  f <> "" /\ Str.contains "/" f = false /\ f <> "." /\ f <> "..".
Proof.
  unfold valid_name. intros H.
  repeat (apply andb_true_iff in H; destruct H as [H ?]).
  repeat split.
  - intros ->. discriminate.
  - now apply negb_true_iff.
  - intros ->. discriminate.
  - intros ->. discriminate.
Qed.

Lemma endswith_char_app (c : ascii) (y x : string) :
  x <> "" ->
  Str.endswith (String c "") (y +++ x) = Str.endswith (String c "") x.
Proof.
  intros Hx. induction y as [|a y IH]; [reflexivity|].
  change (String a y +++ x) with (String a (y +++ x)).
  rewrite endswith_cons, IH.
  replace (String.eqb (String a (y +++ x)) (String c "")) with false; [reflexivity|].
  symmetry. apply String.eqb_neq. intros E. inversion E.
  destruct y; destruct x; simpl in *; congruence.
Qed.

Lemma endswith_sep_no_sep (x : string) :
  Str.contains "/" x = false -> Str.endswith "/" x = false.
Proof.
  intros H. destruct (Str.endswith "/" x) eqn:E; [|reflexivity].
  apply endswith_iff in E. destruct E as [pre ->].
  rewrite contains_app in H. simpl in H.
  apply orb_false_iff in H. destruct H as [_ H]. discriminate.
Qed.

Lemma startswith_sep_no_sep (x : string) :
  Str.contains "/" x = false -> Str.startswith "/" x = false.
Proof.
  destruct x as [|c r]; [reflexivity|].
  cbn [Str.contains Str.startswith].
  intros H. apply orb_false_iff in H. destruct H as [H _].
  rewrite Ascii.eqb_sym, H. reflexivity.
Qed.

Lemma norm_step_name (rooted : bool) (comps : list string) (f : string) :
  valid_name f = true -> PosixPath.norm_step rooted comps f = comps ++ [f].
Proof.
  intros H. destruct (valid_name_facts f H) as (H1 & _ & H3 & H4).
  unfold PosixPath.norm_step.
  apply String.eqb_neq in H1, H3, H4. rewrite H1, H3, H4. reflexivity.
Qed.

Lemma norm_step_empty (rooted : bool) (comps : list string) :
  PosixPath.norm_step rooted comps "" = comps.
Proof. reflexivity. Qed.

(** Joining a name onto a path adds one component to be normalised. *)
Lemma norm_fold_join (rooted : bool) (a f : string) (acc : list string) :
  valid_name f = true ->
  fold_left (PosixPath.norm_step rooted)
    (Str.split PosixPath.sep (PosixPath.join a f)) acc
  = fold_left (PosixPath.norm_step rooted) (Str.split PosixPath.sep a) acc ++ [f].
Proof.
  intros Hf. destruct (valid_name_facts f Hf) as (_ & Hns & _ & _).
  unfold PosixPath.join, PosixPath.sep.
  rewrite (startswith_sep_no_sep f Hns).
  destruct a as [|c r].
  - cbn [Str.nonempty negb orb String.append Str.split fold_left].
    rewrite norm_step_empty, (split_no_sep _ f Hns).
    cbn [fold_left]. now rewrite norm_step_name.
  - cbn [Str.nonempty negb orb].
    destruct (Str.endswith "/" (String c r)) eqn:E.
    + apply endswith_iff in E. destruct E as [pre E]. rewrite E.
      rewrite append_assoc. cbn [String.append].
      rewrite !split_app_general, !fold_left_app.
      rewrite (split_no_sep _ f Hns). simpl.
      now rewrite norm_step_name.
    + rewrite split_app_general, fold_left_app, (split_no_sep _ f Hns).
      simpl. now rewrite norm_step_name.
Qed.

Lemma isabs_join (a f : string) :
  valid_name f = true -> PosixPath.isabs (PosixPath.join a f) = PosixPath.isabs a.
Proof.
  intros Hf. destruct (valid_name_facts f Hf) as (_ & Hns & _ & _).
  unfold PosixPath.join, PosixPath.isabs. rewrite (startswith_sep_no_sep f Hns).
  destruct a as [|c r].
  - apply (startswith_sep_no_sep f Hns).
  - cbn [Str.nonempty negb orb].
    destruct (Str.endswith "/" (String c r)); reflexivity.
Qed.

Lemma norm_comps_join (a f : string) :
  valid_name f = true ->
  PosixPath.norm_comps (PosixPath.join a f) = PosixPath.norm_comps a ++ [f].
Proof.
  intros Hf. unfold PosixPath.norm_comps.
  rewrite isabs_join by assumption. now apply norm_fold_join.
Qed.

Lemma join_nonempty (a f : string) :
  f <> "" -> PosixPath.join a f <> "".
Proof.
  intros Hf. unfold PosixPath.join.
  destruct (Str.startswith "/" f); [assumption|].
  destruct (negb (Str.nonempty a) || Str.endswith "/" a);
    destruct a; simpl; congruence.
Qed.

Lemma join_relative (a b : string) :
  Str.startswith "/" b = false -> PosixPath.join a b = a +++ joint a +++ b.
Proof.
  intros H. unfold PosixPath.join, joint. rewrite H.
  destruct (negb (Str.nonempty a) || Str.endswith "/" a); reflexivity.
Qed.

Lemma joint_app (c p : string) : p <> "" -> joint (c +++ p) = joint p.
Proof.
  intros Hp. unfold joint.
  rewrite (endswith_char_app "/" c p Hp).
  replace (Str.nonempty (c +++ p)) with (Str.nonempty p); [reflexivity|].
  destruct p; [congruence|]. destruct c; reflexivity.
Qed.

Lemma join_assoc (c p f : string) :
  valid_name f = true -> p <> "" ->
  PosixPath.join c (PosixPath.join p f) = PosixPath.join (PosixPath.join c p) f.
Proof.
  intros Hf Hp. destruct (valid_name_facts f Hf) as (Hne & Hns & _ & _).
  pose proof (startswith_sep_no_sep f Hns) as Hsf.
  rewrite (join_relative p f Hsf).
  rewrite (join_relative (PosixPath.join c p) f Hsf).
  destruct (Str.startswith "/" p) eqn:Hsp.
  - assert (E : forall r, PosixPath.join c (p +++ r) = p +++ r).
    { intros r. unfold PosixPath.join.
      replace (Str.startswith "/" (p +++ r)) with true; [reflexivity|].
      symmetry. apply startswith_iff in Hsp. destruct Hsp as [r' ->].
      apply startswith_iff. exists (r' +++ r). now rewrite append_assoc. }
    rewrite E. pose proof (E "") as E0. rewrite append_empty_r in E0.
    rewrite E0. reflexivity.
  - assert (Hspf : Str.startswith "/" (p +++ joint p +++ f) = false).
    { destruct p; [congruence|]. exact Hsp. }
    rewrite (join_relative c _ Hspf), (join_relative c p Hsp).
    rewrite <- (append_assoc c (joint c) p), joint_app by assumption.
    rewrite !append_assoc. reflexivity.
Qed.

Lemma Forall_removelast {A} (P : A -> Prop) (l : list A) :
  Forall P l -> Forall P (removelast l).
Proof.
  induction 1 as [|x l Hx Hl IH]; simpl; [constructor|].
  destruct l; [constructor|]. constructor; assumption.
Qed.

Lemma norm_fold_good (rooted : bool) (l acc : list string) :
  Forall (fun p => Str.contains "/" p = false) l ->
  Forall good_comp acc ->
  Forall good_comp (fold_left (PosixPath.norm_step rooted) l acc).
Proof.
  revert acc. induction l as [|c l IH]; intros acc Hl Hacc; simpl; [assumption|].
  inversion Hl as [|? ? Hc Hl']; subst. apply IH; [assumption|].
  unfold PosixPath.norm_step.
  destruct (String.eqb c "") eqn:E1; [assumption|].
  destruct (String.eqb c "."); [assumption|]. cbn [orb].
  match goal with |- Forall _ (if ?b then _ else _) => destruct b end.
  - apply Forall_app. split; [assumption|].
    constructor; [|constructor]. split; [|assumption].
    now apply String.eqb_neq.
  - now apply Forall_removelast.
Qed.

Lemma norm_comps_good (q : string) : Forall good_comp (PosixPath.norm_comps q).
Proof.
  unfold PosixPath.norm_comps. apply norm_fold_good; [|constructor].
  apply split_parts_no_sep.
Qed.

Lemma filter_nonempty_good (l : list string) :
  Forall good_comp l -> filter Str.nonempty l = l.
Proof.
  induction 1 as [|x l [Hx _] Hl IH]; simpl; [reflexivity|].
  destruct x; [congruence|]. simpl. now rewrite IH.
Qed.

Lemma split_join_good (l : list string) :
  Forall good_comp l ->
  filter Str.nonempty (Str.split "/" (Str.join "/" l)) = l.
Proof.
  intros H. destruct l as [|a l']; [reflexivity|].
  rewrite split_join.
  - now apply filter_nonempty_good.
  - discriminate.
  - eapply Forall_impl; [|exact H]. intros c [_ Hc]. exact Hc.
Qed.

Lemma abs_components (q : string) :
  PosixPath.isabs q = true ->
  filter Str.nonempty (Str.split "/" (PosixPath.normpath q)) = PosixPath.norm_comps q.
Proof.
  intros Habs. unfold PosixPath.normpath, PosixPath.initial_slashes.
  rewrite Habs. destruct q as [|c q']; [discriminate|].
  cbn [Str.nonempty negb].
  pose proof (split_join_good _ (norm_comps_good (String c q'))) as H.
  destruct (Str.startswith "//" (String c q') && negb (Str.startswith "///" (String c q')));
    cbn [String.append Str.nonempty Str.split Ascii.eqb Bool.eqb filter];
    exact H.
Qed.

Lemma isabs_join_abs (cwd p : string) :
  PosixPath.isabs cwd = true -> PosixPath.isabs (PosixPath.join cwd p) = true.
Proof.
  intros H. unfold PosixPath.join.
  destruct (Str.startswith "/" p) eqn:E; [exact E|].
  unfold PosixPath.isabs in *. apply startswith_iff in H. destruct H as [r ->].
  destruct (negb _ || _); reflexivity.
Qed.

Lemma abs_list_join (cwd p f : string) :
  PosixPath.isabs cwd = true -> p <> "" -> valid_name f = true ->
  abs_list cwd (PosixPath.join p f) = abs_list cwd p ++ [f].
Proof.
  intros Hcwd Hp Hf. unfold abs_list, PosixPath.abspath, PosixPath.sep.
  rewrite isabs_join by assumption.
  destruct (PosixPath.isabs p) eqn:Habs.
  - rewrite !abs_components; [now apply norm_comps_join|assumption|].
    now rewrite isabs_join.
  - rewrite join_assoc by assumption.
    rewrite !abs_components; [now apply norm_comps_join| |].
    + now apply isabs_join_abs.
    + rewrite isabs_join by assumption. now apply isabs_join_abs.
Qed.

Lemma commonprefix_app (s names : list string) :
  PosixPath.commonprefix s (s ++ names) = s.
Proof.
  induction s as [|x s IH]; simpl; [destruct names; reflexivity|].
  now rewrite String.eqb_refl, IH.
Qed.

Lemma join_fold_names (l : list string) (acc : string) :
  Forall (fun f => valid_name f = true) l ->
  acc <> "" -> Str.endswith "/" acc = false -> l <> [] ->
  fold_left PosixPath.join l acc = acc +++ String "/" (Str.join "/" l).
Proof.
  revert acc. induction l as [|f l IH]; intros acc Hl Hne Hend Hnil; [congruence|].
  inversion Hl as [|? ? Hf Hl']; subst.
  destruct (valid_name_facts f Hf) as (Hfne & Hns & _ & _).
  assert (Hj : PosixPath.join acc f = acc +++ String "/" f).
  { rewrite join_relative by now apply startswith_sep_no_sep.
    unfold joint. rewrite Hend. destruct acc; [congruence|reflexivity]. }
  cbn [fold_left]. rewrite Hj.
  destruct l as [|g l'].
  - reflexivity.
  - rewrite IH; try assumption; try discriminate.
    + change (Str.join "/" (f :: g :: l')) with (f +++ String "/" (Str.join "/" (g :: l'))).
      change (String "/" f) with ("/" +++ f).
      change (String "/" (f +++ String "/" (Str.join "/" (g :: l'))))
        with ("/" +++ (f +++ String "/" (Str.join "/" (g :: l')))).
      rewrite !append_assoc. reflexivity.
    + destruct acc; simpl; discriminate.
    + change (String "/" f) with ("/" +++ f). rewrite <- append_assoc.
      rewrite endswith_char_app by assumption.
      now apply endswith_sep_no_sep.
Qed.

Lemma join_all_names (l : list string) :
  Forall (fun f => valid_name f = true) l ->
  PosixPath.join_all l = Str.join "/" l.
Proof.
  intros H. destruct l as [|a l]; [reflexivity|].
  inversion H as [|? ? Ha Hl]; subst.
  destruct (valid_name_facts a Ha) as (Hne & Hns & _ & _).
  destruct l as [|b l]; [reflexivity|].
  unfold PosixPath.join_all. rewrite join_fold_names; try assumption.
  - reflexivity.
  - now apply endswith_sep_no_sep.
  - discriminate.
Qed.

(** [relpath] of a path that lies [names] below [start]. *)
Lemma relpath_below (cwd path start : string) (names : list string) :
  path <> "" -> names <> [] ->
  Forall (fun f => valid_name f = true) names ->
  abs_list cwd path = abs_list cwd start ++ names ->
  PosixPath.relpath cwd path start = Ok (Str.join "/" names).
Proof.
  intros Hp Hn Hv E. unfold PosixPath.relpath.
  destruct path as [|c r]; [congruence|]. cbn [Str.nonempty negb].
  fold (abs_list cwd start). fold (abs_list cwd (String c r)).
  rewrite E, commonprefix_app, Nat.sub_diag, skipn_app, Nat.sub_diag.
  rewrite skipn_all. cbn [repeat skipn app].
  destruct names as [|a l]; [congruence|].
  now rewrite join_all_names.
Qed.

(** ** Trees *)

Lemma node_induction (P : node -> Prop) :
  (forall c, P (File c)) ->
  (forall r es, Forall (fun e => P (snd e)) es -> P (Dir r es)) ->
  P Other ->
  forall n, P n.
Proof.
  intros Hfile Hdir Hother. fix IH 1. intros [c|r es|].
  - apply Hfile.
  - apply Hdir. induction es as [|[name c] es IHes]; constructor.
    + simpl. apply IH.
    + exact IHes.
  - apply Hother.
Qed.

Lemma distinct_NoDup (l : list string) : distinct l = true <-> NoDup l.
Proof.
  induction l as [|x l IH]; simpl.
  - split; [constructor|reflexivity].
  - rewrite andb_true_iff, negb_true_iff, IH, NoDup_cons_iff.
    assert (H : existsb (String.eqb x) l = false <-> ~ In x l).
    { split.
      - intros H Hin. assert (E : existsb (String.eqb x) l = true).
        { apply existsb_exists. exists x. split; [assumption|apply String.eqb_refl]. }
        congruence.
      - intros H. destruct (existsb (String.eqb x) l) eqn:E; [|reflexivity].
        apply existsb_exists in E. destruct E as (y & Hy & E).
        apply String.eqb_eq in E. subst. contradiction. }
    rewrite H. reflexivity.
Qed.

Lemma wf_dir (r : bool) (es : list (string * node)) :
  wf_node (Dir r es) = true ->
  NoDup (map fst es) /\
  forall name c, In (name, c) es -> valid_name name = true /\ wf_node c = true.
Proof.
  cbn [wf_node]. intros H. apply andb_true_iff in H. destruct H as [Hd Ha].
  split; [now apply distinct_NoDup|].
  intros name c Hin. rewrite forallb_forall in Ha.
  specialize (Ha _ Hin). simpl in Ha. now apply andb_true_iff in Ha.
Qed.


Lemma child_In (name : string) (es : list (string * node)) (c : node) :
  child name es = Some c -> In (name, c) es.
Proof.
  induction es as [|[k n] es IH]; simpl; [discriminate|].
  destruct (String.eqb k name) eqn:E.
  - intros H. apply String.eqb_eq in E. left. congruence.
  - intros H. right. now apply IH.
Qed.

Lemma In_child (name : string) (es : list (string * node)) (c : node) :
  NoDup (map fst es) -> In (name, c) es -> child name es = Some c.
Proof.
  induction es as [|[k n] es IH]; simpl; intros Hnd Hin; [contradiction|].
  inversion Hnd as [|? ? Hk Hnd']; subst.
  destruct Hin as [Hin|Hin].
  - inversion Hin; subst. now rewrite String.eqb_refl.
  - destruct (String.eqb k name) eqn:E.
    + apply String.eqb_eq in E. subst. exfalso. apply Hk.
      apply in_map_iff. exists (name, c). split; [reflexivity|assumption].
    + now apply IH.
Qed.

Lemma wf_lookup (loc : list string) (n m : node) :
  wf_node n = true -> tree_lookup n loc = Some m -> wf_node m = true.
Proof.
  revert n. induction loc as [|name loc IH]; intros n Hwf H; simpl in H.
  - congruence.
  - destruct n as [c|r es|]; [discriminate| |discriminate].
    destruct (child name es) as [ch|] eqn:E; [|discriminate].
    apply child_In in E. apply (IH ch); [|assumption].
    exact (proj2 (proj2 (wf_dir r es Hwf) name ch E)).
Qed.

Lemma tree_lookup_app (n : node) (l1 l2 : list string) :
  tree_lookup n (l1 ++ l2) =
  match tree_lookup n l1 with
  | Some m => tree_lookup m l2
  | None => None
  end.
Proof.
  revert n. induction l1 as [|a l1 IH]; intros n; [reflexivity|].
  simpl. destruct n as [c|r es|]; [reflexivity| |reflexivity].
  destruct (child a es); [apply IH|reflexivity].
Qed.

Lemma in_filenames (es : list (string * node)) (f : string) :
  In f (filenames es) <-> exists c, is_dir c = false /\ In (f, c) es.
Proof.
  unfold filenames. rewrite in_map_iff. split.
  - intros ([k n] & Hk & Hin). simpl in Hk. subst k.
    apply filter_In in Hin. destruct Hin as [Hin Hd].
    exists n. split; [now apply negb_true_iff|assumption].
  - intros (c & Hc & Hin). exists (f, c). split; [reflexivity|].
    apply filter_In. split; [assumption|]. simpl. now rewrite Hc.
Qed.

Lemma filenames_NoDup (es : list (string * node)) :
  NoDup (map fst es) -> NoDup (filenames es).
Proof.
  unfold filenames. induction es as [|[k n] es IH]; simpl; intros H; [constructor|].
  inversion H as [|? ? Hk Hnd]; subst.
  destruct (negb (is_dir n)); simpl; [|now apply IH].
  constructor; [|now apply IH].
  intros Hin. apply Hk. apply in_map_iff in Hin.
  destruct Hin as (e & He & Hin). apply filter_In in Hin.
  apply in_map_iff. exists e. tauto.
Qed.

(** ** Loops *)

Lemma for_each_app {A B} (l1 l2 : list A) (acc : B) (body : B -> A -> M B)
  (w : world) :
  for_each (l1 ++ l2) acc body w =
  match for_each l1 acc body w with
  | (Ok acc', w') => for_each l2 acc' body w'
  | (Raise e, w') => (Raise e, w')
  | (Unfinished, w') => (Unfinished, w')
  end.
Proof.
  revert acc w. induction l1 as [|x l1 IH]; intros acc w; [reflexivity|].
  cbn [app for_each]. unfold bind.
  destruct (body acc x w) as [[acc'|e|] w']; [apply IH|reflexivity|reflexivity].
Qed.

Lemma for_each_pure {A B} (l : list A) (body : B -> A -> M B) (g : B -> A -> B) :
  (forall acc x w, In x l -> body acc x w = (Ok (g acc x), w)) ->
  forall acc w, for_each l acc body w = (Ok (fold_left g l acc), w).
Proof.
  induction l as [|x l IH]; intros Hbody acc w; [reflexivity|].
  cbn [for_each fold_left]. unfold bind.
  rewrite Hbody by (left; reflexivity).
  apply IH. intros acc' y w' Hy. apply Hbody. now right.
Qed.

(** ** The scanner *)

Section Scanner.

Variable fs : filesystem.
Variable d : string.

Lemma getcwd_abs : PosixPath.isabs (getcwd fs) = true.
Proof. reflexivity. Qed.

Lemma add_image_below (root : string) (prefix : list string) (f : string)
  (acc : list string) (w : world) :
  root <> "" -> valid_name f = true ->
  Forall (fun x => valid_name x = true) prefix ->
  abs_list (getcwd fs) root = abs_list (getcwd fs) d ++ prefix ->
  add_image fs (Some d) root acc f w =
  (Ok (if is_image f then acc ++ [Str.join "/" (prefix ++ [f])] else acc), w).
Proof.
  intros Hroot Hf Hpre Habs. unfold add_image.
  destruct (is_image f); [|reflexivity].
  unfold bind, lift, ret. cbn [start_or_curdir].
  rewrite (relpath_below _ _ _ (prefix ++ [f])); [reflexivity| | | |].
  - apply join_nonempty. exact (proj1 (valid_name_facts f Hf)).
  - destruct prefix; discriminate.
  - apply Forall_app. split; [assumption|]. constructor; [assumption|constructor].
  - rewrite abs_list_join by (auto using getcwd_abs).
    rewrite Habs, <- app_assoc. reflexivity.
Qed.

Lemma fold_add_image (prefix : list string) (files acc : list string) :
  fold_left
    (fun acc f => if is_image f then acc ++ [Str.join "/" (prefix ++ [f])] else acc)
    files acc
  = acc ++ map (Str.join "/") (map (fun f => prefix ++ [f]) (filter is_image files)).
Proof.
  revert acc. induction files as [|f files IH]; intros acc; simpl.
  - now rewrite app_nil_r.
  - rewrite IH. destruct (is_image f); [|reflexivity].
    simpl. now rewrite <- app_assoc.
Qed.

(** The walk below a well-formed directory collects the relative paths of
    [scan_names], in that order, and does not raise. *)
Lemma walk_collects (n : node) :
  wf_node n = true ->
  forall top prefix acc w,
    top <> "" ->
    Forall (fun x => valid_name x = true) prefix ->
    abs_list (getcwd fs) top = abs_list (getcwd fs) d ++ prefix ->
    for_each (walk_node n top) acc (add_images fs (Some d)) w
    = (Ok (acc ++ map (Str.join "/") (scan_names n prefix)), w).
Proof.
  induction n as [c|r es IH|] using node_induction;
    intros Hwf top prefix acc w Htop Hpre Habs;
    [simpl; now rewrite app_nil_r| |simpl; now rewrite app_nil_r].
  - cbn [walk_node scan_names]. destruct r; [|simpl; now rewrite app_nil_r].
    destruct (wf_dir _ _ Hwf) as [Hnd Hes].
    cbn [for_each]. unfold bind. cbn [add_images].
    rewrite (for_each_pure _ _
               (fun acc f => if is_image f
                             then acc ++ [Str.join "/" (prefix ++ [f])] else acc)).
    2:{ intros acc' f w' Hin. apply add_image_below; try assumption.
        apply in_filenames in Hin. destruct Hin as (c & _ & Hin).
        exact (proj1 (Hes _ _ Hin)). }
    rewrite fold_add_image, map_app, app_assoc.
    generalize (acc ++ map (Str.join "/")
                  (map (fun f => prefix ++ [f]) (filter is_image (filenames es)))).
    clear acc Hnd.
    induction es as [|[name c] es IHes]; intros acc.
    + simpl. now rewrite app_nil_r.
    + cbn [flat_map]. rewrite for_each_app.
      inversion IH as [|? ? IHc IHrest]; subst. simpl in IHc.
      assert (Hc : valid_name name = true /\ wf_node c = true)
        by (apply Hes; left; reflexivity).
      destruct Hc as [Hname Hwfc].
      assert (Hfirst :
        for_each (if is_dir c then walk_node c (PosixPath.join top name) else [])
          acc (add_images fs (Some d)) w
        = (Ok (acc ++ map (Str.join "/")
                 (if is_dir c then scan_names c (prefix ++ [name]) else [])), w)).
      { destruct (is_dir c).
        - apply IHc; try assumption.
          + apply join_nonempty. exact (proj1 (valid_name_facts name Hname)).
          + apply Forall_app. split; [assumption|].
            constructor; [assumption|constructor].
          + rewrite abs_list_join by (auto using getcwd_abs).
            rewrite Habs, <- app_assoc. reflexivity.
        - simpl. now rewrite app_nil_r. }
      rewrite Hfirst, IHes.
      * rewrite map_app, app_assoc. reflexivity.
      * exact IHrest.
      * cbn [wf_node] in Hwf |- *. apply andb_true_iff in Hwf.
        destruct Hwf as [Hd Hall]. simpl in Hd, Hall.
        apply andb_true_iff in Hd. apply andb_true_iff in Hall.
        apply andb_true_iff. tauto.
      * intros k m Hin. apply Hes. now right.
Qed.

End Scanner.

Lemma os_stat_nonempty (fs : filesystem) (d : string) (n : node) :
  os_stat fs d = Some n -> d <> "".
Proof. intros H ->. discriminate. Qed.

Lemma os_stat_lookup (fs : filesystem) (d : string) (n : node) :
  os_stat fs d = Some n ->
  exists loc, os_locate fs d = Some loc /\ tree_lookup (fs_root fs) loc = Some n.
Proof.
  unfold os_stat. destruct (os_locate fs d) as [loc|]; [|discriminate].
  intros H. now exists loc.
Qed.

Lemma os_stat_wf (fs : filesystem) (d : string) (n : node) :
  wf_node (fs_root fs) = true -> os_stat fs d = Some n -> wf_node n = true.
Proof.
  intros Hwf H. destruct (os_stat_lookup _ _ _ H) as (loc & _ & Hl).
  exact (wf_lookup _ _ _ Hwf Hl).
Qed.

(** The scanner on a path that names a node of a well-formed tree. *)
Lemma list_image_files_found (fs : filesystem) (d : string) (n : node) (w : world) :
  wf_node n = true -> os_stat fs d = Some n ->
  let images := map (Str.join "/") (scan_names n []) in
  list_image_files fs (Some d) w
  = (Ok images, logged w (INFO, FoundImages (List.length images) (Some d))).
Proof.
  intros Hwf Hstat images. unfold list_image_files, os_walk, bind, ret.
  rewrite Hstat.
  rewrite (walk_collects fs d n Hwf d [] [] w).
  - reflexivity.
  - exact (os_stat_nonempty _ _ _ Hstat).
  - constructor.
  - now rewrite app_nil_r.
Qed.

(** The scanner on a path that names nothing. *)
Lemma list_image_files_missing (fs : filesystem) (d : string) (w : world) :
  os_stat fs d = None ->
  list_image_files fs (Some d) w = (Ok [], logged w (INFO, FoundImages 0 (Some d))).
Proof.
  intros Hstat. unfold list_image_files, os_walk, bind, ret.
  rewrite Hstat. reflexivity.
Qed.

Lemma tree_lookup_valid (rel : list string) (n m : node) :
  wf_node n = true -> tree_lookup n rel = Some m ->
  Forall (fun x => valid_name x = true) rel.
Proof.
  revert n. induction rel as [|name rel IH]; intros n Hwf H; [constructor|].
  simpl in H. destruct n as [c|r es|]; [discriminate| |discriminate].
  destruct (child name es) as [ch|] eqn:E; [|discriminate].
  apply child_In in E. destruct (proj2 (wf_dir r es Hwf) name ch E) as [Hv Hc].
  constructor; [assumption|]. exact (IH ch Hc H).
Qed.

Lemma last_cons_nonempty {A} (x : A) (l : list A) (dflt : A) :
  l <> [] -> last (x :: l) dflt = last l dflt.
Proof. destruct l; [congruence|reflexivity]. Qed.

(** Every scanned name list leads to an entry of the tree that is not a
    directory and whose name passes the extension test. *)
Lemma scan_names_sound (n : node) :
  wf_node n = true ->
  forall prefix names, In names (scan_names n prefix) ->
  exists rel c, names = prefix ++ rel /\ rel <> [] /\
                tree_lookup n rel = Some c /\ is_dir c = false /\
                is_image (last rel "") = true.
Proof.
  induction n as [c|r es IH|] using node_induction; intros Hwf prefix names Hin;
    [contradiction| |contradiction].
  cbn [scan_names] in Hin. destruct r; [|contradiction].
  destruct (wf_dir _ _ Hwf) as [Hnd Hes].
  apply in_app_or in Hin. destruct Hin as [Hin|Hin].
  - apply in_map_iff in Hin. destruct Hin as (f & <- & Hf).
    apply filter_In in Hf. destruct Hf as [Hf Himg].
    apply in_filenames in Hf. destruct Hf as (c & Hd & Hc).
    exists [f], c. split; [reflexivity|]. split; [discriminate|].
    split; [|split; [exact Hd|exact Himg]].
    simpl. now rewrite (In_child _ _ _ Hnd Hc).
  - apply in_flat_map in Hin. destruct Hin as ([name ch] & He & Hin).
    destruct (is_dir ch) eqn:Hd; [|contradiction].
    rewrite Forall_forall in IH.
    destruct (IH _ He (proj2 (Hes _ _ He)) _ _ Hin)
      as (rel & c & -> & Hne & Hl & Hc & Hi).
    exists (name :: rel), c. split; [now rewrite <- app_assoc|].
    split; [discriminate|]. split; [|split; [exact Hc|]].
    + simpl. now rewrite (In_child _ _ _ Hnd He).
    + now rewrite last_cons_nonempty.
Qed.


Lemma scan_names_NoDup (n : node) :
  wf_node n = true -> forall prefix, NoDup (scan_names n prefix).
Proof.
  induction n as [c|r es IH|] using node_induction; intros Hwf prefix;
    [constructor| |constructor].
  - cbn [scan_names]. destruct r; [|constructor].
    destruct (wf_dir _ _ Hwf) as [Hnd Hes].
    assert (Hshape : forall name ch names,
               In (name, ch) es ->
               In names (if is_dir ch then scan_names ch (prefix ++ [name]) else []) ->
               exists rel, rel <> [] /\ names = prefix ++ name :: rel).
    { intros name ch names He Hin. destruct (is_dir ch); [|contradiction].
      destruct (scan_names_sound ch (proj2 (Hes _ _ He)) _ _ Hin)
        as (rel & c & -> & Hne & _).
      exists rel. split; [assumption|]. now rewrite <- app_assoc. }
    apply NoDup_app.
    + apply NoDup_map_NoDup_ForallPairs.
      * intros f g _ _ E. apply app_inv_head in E. congruence.
      * apply NoDup_filter. now apply filenames_NoDup.
    + clear Hwf. induction es as [|[name ch] es IHes]; [constructor|].
      cbn [flat_map]. inversion IH as [|? ? IHc IHrest]; subst.
      inversion Hnd as [|? ? Hname Hnd']; subst. simpl in IHc, Hname.
      apply NoDup_app.
      * destruct (is_dir ch); [|constructor].
        apply IHc. apply (Hes name ch). now left.
      * apply IHes; try assumption.
        -- intros k m Hin. apply Hes. now right.
        -- intros k m names Hin. apply Hshape. now right.
      * intros names H1 H2.
        destruct (Hshape name ch names (or_introl eq_refl) H1) as (rel1 & _ & E1).
        apply in_flat_map in H2. destruct H2 as ([k m] & Hk & H2).
        destruct (Hshape k m names (or_intror Hk) H2) as (rel2 & _ & E2).
        rewrite E1 in E2. apply app_inv_head in E2. injection E2 as E2 _.
        apply Hname. apply in_map_iff. exists (k, m). split; [now symmetry|assumption].
    + intros names H1 H2. apply in_map_iff in H1. destruct H1 as (f & <- & _).
      apply in_flat_map in H2. destruct H2 as ([k m] & Hk & H2).
      destruct (Hshape k m _ Hk H2) as (rel & Hne & E).
      apply app_inv_head in E. injection E as _ E. congruence.
Qed.

Lemma join_names_inj (l1 l2 : list string) :
  l1 <> [] -> l2 <> [] ->
  Forall (fun x => valid_name x = true) l1 ->
  Forall (fun x => valid_name x = true) l2 ->
  Str.join "/" l1 = Str.join "/" l2 -> l1 = l2.
Proof.
  intros H1 H2 V1 V2 E.
  assert (S : forall l, l <> [] -> Forall (fun x => valid_name x = true) l ->
                        Str.split "/" (Str.join "/" l) = l).
  { intros l Hl Vl. apply split_join; [assumption|].
    eapply Forall_impl; [|exact Vl]. intros x Hx.
    exact (proj1 (proj2 (valid_name_facts x Hx))). }
  rewrite <- (S l1 H1 V1), <- (S l2 H2 V2), E. reflexivity.
Qed.

(** The scanned paths of a well-formed tree are pairwise different. *)
Lemma scanned_NoDup (n : node) :
  wf_node n = true -> NoDup (map (Str.join "/") (scan_names n [])).
Proof.
  intros Hwf. apply NoDup_map_NoDup_ForallPairs; [|now apply scan_names_NoDup].
  intros l1 l2 H1 H2 E.
  destruct (scan_names_sound n Hwf _ _ H1) as (r1 & c1 & -> & N1 & L1 & _).
  destruct (scan_names_sound n Hwf _ _ H2) as (r2 & c2 & -> & N2 & L2 & _).
  simpl in *. apply join_names_inj; try assumption.
  - exact (tree_lookup_valid _ _ _ Hwf L1).
  - exact (tree_lookup_valid _ _ _ Hwf L2).
Qed.

(** ** Sampling *)

Section Sampling.

Context {A : Type}.

Lemma nth_error_set_nth (l : list A) (j : nat) (y : A) (i : nat) :
  nth_error (Random.set_nth j y l) i
  = if (i =? j)%nat && (j <? List.length l)%nat then Some y else nth_error l i.
Proof.
  revert j i. induction l as [|h t IH]; intros j i.
  - simpl. destruct j; rewrite andb_false_r; reflexivity.
  - destruct j as [|j'], i as [|i']; try reflexivity.
    cbn [Random.set_nth nth_error]. rewrite IH. reflexivity.
Qed.

Lemma length_set_nth (l : list A) (j : nat) (y : A) :
  List.length (Random.set_nth j y l) = List.length l.
Proof.
  revert j. induction l as [|h t IH]; intros [|j']; simpl; auto.
Qed.

(** The candidates left after one pick: the picked one is gone, the
    others stay, and nothing is listed twice. *)
Lemma front_after_pick (pool : list A) (m j : nat) (x y : A) :
  m <= List.length pool -> j < m ->
  nth_error pool j = Some x -> nth_error pool (m - 1) = Some y ->
  NoDup (firstn m pool) ->
  NoDup (firstn (m - 1) (Random.set_nth j y pool)) /\
  ~ In x (firstn (m - 1) (Random.set_nth j y pool)) /\
  incl (firstn (m - 1) (Random.set_nth j y pool)) (firstn m pool) /\
  (forall z, In z (firstn m pool) -> z <> x ->
             In z (firstn (m - 1) (Random.set_nth j y pool))).
Proof.
  intros Hm Hj Ex Ey Hnd.
  set (F' := firstn (m - 1) (Random.set_nth j y pool)).
  set (sigma := fun i => if (i =? j)%nat then m - 1 else i).
  assert (Hinj : forall a b, a < m -> b < m ->
                             nth_error pool a = nth_error pool b -> a = b).
  { intros a b Ha Hb E. rewrite NoDup_nth_error in Hnd. apply Hnd.
    - rewrite length_firstn. lia.
    - rewrite !nth_error_firstn.
      destruct (Nat.ltb_spec a m), (Nat.ltb_spec b m); try lia. exact E. }
  assert (Hfront : forall i, i < m - 1 ->
                             nth_error F' i = nth_error pool (sigma i)).
  { intros i Hi. unfold F', sigma. rewrite nth_error_firstn, nth_error_set_nth.
    destruct (Nat.ltb_spec i (m - 1)); [|lia].
    destruct (Nat.eqb_spec i j), (Nat.ltb_spec j (List.length pool));
      cbn [andb]; try lia; congruence || reflexivity. }
  assert (Hout : forall i, m - 1 <= i -> nth_error F' i = None).
  { intros i Hi. apply nth_error_None. unfold F'. rewrite length_firstn. lia. }
  assert (Hsig : forall i, i < m - 1 -> sigma i < m /\ sigma i <> j).
  { intros i Hi. unfold sigma. destruct (Nat.eqb_spec i j); lia. }
  assert (Hsome : forall i z, nth_error F' i = Some z ->
                              i < m - 1 /\ nth_error pool (sigma i) = Some z).
  { intros i z E. destruct (Nat.lt_ge_cases i (m - 1)) as [Hi|Hi].
    - split; [assumption|]. now rewrite <- Hfront.
    - rewrite Hout in E by assumption. discriminate. }
  split; [|split; [|split]].
  - apply NoDup_nth_error. intros i k Hi E.
    unfold F' in Hi. rewrite length_firstn in Hi.
    assert (Hi' : i < m - 1) by lia.
    destruct (nth_error F' i) as [z|] eqn:Ei.
    + symmetry in E. destruct (Hsome _ _ E) as [Hk Ek].
      destruct (Hsome _ _ Ei) as [_ Ei'].
      assert (Es : sigma i = sigma k).
      { apply Hinj; try apply Hsig; try assumption. congruence. }
      unfold sigma in Es.
      destruct (Nat.eqb_spec i j), (Nat.eqb_spec k j); lia.
    + rewrite Hfront in Ei by assumption.
      apply nth_error_None in Ei. destruct (Hsig i Hi'). lia.
  - intros Hin. apply In_nth_error in Hin. destruct Hin as [i Ei].
    destruct (Hsome _ _ Ei) as [Hi Ei'].
    destruct (Hsig i Hi) as [Hlt Hne]. apply Hne.
    apply Hinj; try assumption. congruence.
  - intros z Hin. apply In_nth_error in Hin. destruct Hin as [i Ei].
    destruct (Hsome _ _ Ei) as [Hi Ei'].
    destruct (Hsig i Hi) as [Hlt _].
    apply (nth_error_In _ (sigma i)). rewrite nth_error_firstn.
    destruct (Nat.ltb_spec (sigma i) m); [assumption|lia].
  - intros z Hz Hzx. apply In_nth_error in Hz. destruct Hz as [a Ea].
    rewrite nth_error_firstn in Ea.
    destruct (Nat.ltb_spec a m) as [Ha|]; [|discriminate].
    assert (Haj : a <> j) by (intros ->; congruence).
    destruct (Nat.eq_dec a (m - 1)) as [Hlast|Hlast].
    + apply (nth_error_In _ j). rewrite Hfront by lia. unfold sigma.
      rewrite Nat.eqb_refl. congruence.
    + apply (nth_error_In _ a). rewrite Hfront by lia. unfold sigma.
      destruct (Nat.eqb_spec a j); [contradiction|exact Ea].
Qed.

(** The selection loop returns [todo] candidates, no one twice; the first
    one is the candidate at the position drawn first. *)
Lemma sample_loop_ok (todo : nat) :
  forall (m : nat) (pool : list A) (w : world),
    todo <= m -> m <= List.length pool -> NoDup (firstn m pool) ->
    exists l w',
      Random.sample_loop todo m pool w = (Ok l, w') /\ log w' = log w /\
      List.length l = todo /\ NoDup l /\ incl l (firstn m pool) /\
      (0 < todo -> hd_error l = nth_error pool (draws w 0 mod m)).
Proof.
  induction todo as [|todo IH]; intros m pool w Htodo Hm Hnd.
  - exists [], w. split; [reflexivity|]. split; [reflexivity|].
    split; [reflexivity|]. split; [constructor|]. split; [apply incl_nil_l|lia].
  - cbn [Random.sample_loop]. unfold bind, Random.randbelow.
    set (j := draws w 0 mod m).
    set (w1 := {| draws := fun i => draws w (S i); log := log w |}).
    assert (Hj : j < m) by (apply Nat.mod_upper_bound; lia).
    destruct (nth_error pool j) as [x|] eqn:Ex;
      [|apply nth_error_None in Ex; lia].
    destruct (nth_error pool (m - 1)) as [y|] eqn:Ey;
      [|apply nth_error_None in Ey; lia].
    destruct (front_after_pick pool m j x y Hm Hj Ex Ey Hnd)
      as (N' & Hx & Hincl & _).
    destruct (IH (m - 1) (Random.set_nth j y pool) w1)
      as (l & w' & E & Hlog & Hlen & Hl & Hsub & _).
    + lia.
    + rewrite length_set_nth. lia.
    + exact N'.
    + rewrite E. exists (x :: l), w'. split; [reflexivity|].
      split; [exact Hlog|]. split; [simpl; now rewrite Hlen|].
      split; [|split; [|reflexivity]].
      * constructor; [|assumption]. intros Hin. apply Hx. now apply Hsub.
      * apply incl_cons.
        -- apply (nth_error_In _ j). rewrite nth_error_firstn.
           destruct (Nat.ltb_spec j m); [assumption|lia].
        -- eapply incl_tran; eassumption.
Qed.


Lemma existsb_eqb_In (j : nat) (l : list nat) :
  existsb (Nat.eqb j) l = true <-> In j l.
Proof.
  rewrite existsb_exists. split.
  - intros (x & Hx & E). apply Nat.eqb_eq in E. now subst.
  - intros H. exists j. split; [assumption|apply Nat.eqb_refl].
Qed.

Lemma fresh_index_eq (fuel n : nat) (selected : list nat) :
  Random.fresh_index fuel n selected =
  (j <- Random.randbelow n ;;
   if existsb (Nat.eqb j) selected then
     match fuel with
     | O => unfinished
     | S fuel' => Random.fresh_index fuel' n selected
     end
   else ret j).
Proof. destruct fuel; reflexivity. Qed.

(** The pick with a set of selected positions: it is not followed to its
    end, which takes a first draw among the selected positions, or it
    gives a position that is not selected, the first one drawn if that
    one is not. *)
Lemma fresh_index_outcome (n : nat) (selected : list nat) (fuel : nat) :
  forall w, 0 < n ->
    (exists w', Random.fresh_index fuel n selected w = (Unfinished, w') /\
                log w' = log w /\ In (draws w 0 mod n) selected) \/
    (exists j w', Random.fresh_index fuel n selected w = (Ok j, w') /\
                  log w' = log w /\ j < n /\ ~ In j selected /\
                  (~ In (draws w 0 mod n) selected -> j = draws w 0 mod n)).
Proof.
  induction fuel as [|fuel IH]; intros w Hn;
    rewrite fresh_index_eq; unfold bind, Random.randbelow;
    destruct (existsb (Nat.eqb (draws w 0 mod n)) selected) eqn:E.
  - left. eexists. split; [reflexivity|]. split; [reflexivity|].
    now apply existsb_eqb_In.
  - right. eexists _, _. split; [reflexivity|]. split; [reflexivity|].
    split; [now apply Nat.mod_upper_bound; lia|].
    split; [|reflexivity]. intros H. apply existsb_eqb_In in H. congruence.
  - apply existsb_eqb_In in E.
    destruct (IH {| draws := fun i => draws w (S i); log := log w |} Hn)
      as [(w' & E' & Hlog & _)|(j & w' & E' & Hlog & Hj & Hfresh & _)].
    + left. exists w'. split; [exact E'|]. split; [exact Hlog|exact E].
    + right. exists j, w'. split; [exact E'|]. split; [exact Hlog|].
      split; [exact Hj|]. split; [exact Hfresh|]. intros H. contradiction.
  - right. eexists _, _. split; [reflexivity|]. split; [reflexivity|].
    split; [now apply Nat.mod_upper_bound; lia|].
    split; [|reflexivity]. intros H. apply existsb_eqb_In in H. congruence.
Qed.

(** A pick that has ended ends the same way when it is followed
    longer. *)
Lemma fresh_index_mono (n : nat) (selected : list nat) (fuel : nat) :
  forall fuel' w j w',
    fuel <= fuel' ->
    Random.fresh_index fuel n selected w = (Ok j, w') ->
    Random.fresh_index fuel' n selected w = (Ok j, w').
Proof.
  induction fuel as [|fuel IH]; intros fuel' w j w' Hle;
    rewrite (fresh_index_eq fuel'), fresh_index_eq;
    unfold bind, Random.randbelow;
    destruct (existsb (Nat.eqb (draws w 0 mod n)) selected); try (intros H; exact H).
  - discriminate.
  - destruct fuel' as [|fuel']; [lia|]. apply IH. lia.
Qed.

(** A pick ends when a position that is not selected is drawn at some
    time. *)
Lemma fresh_index_returns (n : nat) (selected : list nat) (t : nat) :
  forall w, ~ In (draws w t mod n) selected ->
    exists fuel j w' s,
      Random.fresh_index fuel n selected w = (Ok j, w') /\
      forall i, draws w' i = draws w (s + i).
Proof.
  induction t as [|t IH]; intros w Ht.
  - exists 0, (draws w 0 mod n), {| draws := fun i => draws w (S i); log := log w |}, 1.
    split; [|reflexivity]. cbn [Random.fresh_index]. unfold bind, Random.randbelow.
    destruct (existsb (Nat.eqb (draws w 0 mod n)) selected) eqn:E; [|reflexivity].
    apply existsb_eqb_In in E. contradiction.
  - destruct (existsb (Nat.eqb (draws w 0 mod n)) selected) eqn:E.
    + destruct (IH {| draws := fun i => draws w (S i); log := log w |} Ht)
        as (fuel & j & w' & s & E' & Hs).
      exists (S fuel), j, w', (S s). split.
      * cbn [Random.fresh_index]. unfold bind, Random.randbelow.
        rewrite E. exact E'.
      * intros i. rewrite Hs. cbn [draws]. f_equal.
    + exists 0, (draws w 0 mod n),
        {| draws := fun i => draws w (S i); log := log w |}, 1.
      split; [|reflexivity]. cbn [Random.fresh_index].
      unfold bind, Random.randbelow. now rewrite E.
Qed.

(** The selection with a set of positions: it is not followed to its
    end, or it gives the entries at [todo] pairwise different positions
    that were not selected before, the first of them the position drawn
    first when that one was not selected. *)
Lemma sample_set_loop_outcome (population : list A) (fuel todo : nat) :
  forall selected w,
    0 < List.length population ->
    (exists w', Random.sample_set_loop fuel todo (List.length population)
                  population selected w = (Unfinished, w') /\
                log w' = log w /\ (selected <> [] \/ 1 < todo)) \/
    (exists l positions w',
        Random.sample_set_loop fuel todo (List.length population)
          population selected w = (Ok l, w') /\
        log w' = log w /\ List.length l = todo /\ NoDup positions /\
        (forall p, In p positions -> ~ In p selected) /\
        map Some l = map (nth_error population) positions /\
        (0 < todo -> ~ In (draws w 0 mod List.length population) selected ->
         hd_error positions = Some (draws w 0 mod List.length population))).
Proof.
  induction todo as [|todo IH]; intros selected w Hn.
  - right. exists [], [], w. split; [reflexivity|]. split; [reflexivity|].
    split; [reflexivity|]. split; [constructor|].
    split; [intros p []|]. split; [reflexivity|lia].
  - cbn [Random.sample_set_loop]. unfold bind.
    destruct (fresh_index_outcome (List.length population) selected fuel w Hn)
      as [(w1 & E1 & Hlog1 & Hin)|(j & w1 & E1 & Hlog1 & Hj & Hfresh & Hfirst)];
      rewrite E1.
    + left. exists w1. split; [reflexivity|]. split; [exact Hlog1|].
      left. intros ->. contradiction.
    + destruct (nth_error population j) as [x|] eqn:Ex;
        [|apply nth_error_None in Ex; lia].
      destruct (IH (j :: selected) w1 Hn)
        as [(w2 & E2 & Hlog2 & _)
           |(l & ps & w2 & E2 & Hlog2 & Hlen & Hps & Hout & Hmap & _)];
        rewrite E2.
      * left. exists w2. split; [reflexivity|]. split; [congruence|].
        destruct todo as [|todo']; [discriminate|]. right. lia.
      * right. exists (x :: l), (j :: ps), w2. split; [reflexivity|].
        split; [congruence|]. split; [simpl; now rewrite Hlen|].
        split; [|split; [|split]].
        -- constructor; [|exact Hps]. intros Hin.
           apply (Hout j Hin). now left.
        -- intros p [<-|Hp]; [exact Hfresh|].
           intros Hin. apply (Hout p Hp). now right.
        -- cbn [map]. now rewrite Ex, Hmap.
        -- intros _ H. cbn [hd_error]. now rewrite (Hfirst H).
Qed.

Lemma sample_set_loop_mono (population : list A) (n fuel fuel' todo : nat) :
  fuel <= fuel' ->
  forall selected w l w',
    Random.sample_set_loop fuel todo n population selected w = (Ok l, w') ->
    Random.sample_set_loop fuel' todo n population selected w = (Ok l, w').
Proof.
  intros Hle. induction todo as [|todo IH]; intros selected w l w';
    [intros H; exact H|].
  cbn [Random.sample_set_loop]. unfold bind.
  destruct (Random.fresh_index fuel n selected w) as [[j|e|] w1] eqn:E1;
    try discriminate.
  rewrite (fresh_index_mono _ _ _ _ _ _ _ Hle E1).
  destruct (nth_error population j) as [x|]; [|intros H; exact H].
  destruct (Random.sample_set_loop fuel todo n population (j :: selected) w1)
    as [[l1|e|] w2] eqn:E2; try discriminate.
  rewrite (IH _ _ _ _ E2). intros H; exact H.
Qed.

(** The selection with a set of positions ends when the draws keep
    leaving every set of fewer positions than are to be selected. *)
Lemma sample_set_loop_returns (population : list A) (todo : nat) :
  forall selected w,
    0 < List.length population ->
    keeps_drawing (List.length population) (List.length selected + todo) w ->
    exists fuel l w',
      Random.sample_set_loop fuel todo (List.length population)
        population selected w = (Ok l, w').
Proof.
  induction todo as [|todo IH]; intros selected w Hn Hk.
  - exists 0, [], w. reflexivity.
  - destruct (Hk 0 selected) as (t & _ & Ht); [lia|].
    destruct (fresh_index_returns _ _ _ _ Ht) as (fuel1 & j & w1 & s & E1 & Hs).
    assert (Hj : j < List.length population).
    { destruct (fresh_index_outcome (List.length population) selected fuel1 w Hn)
        as [(w0 & E0 & _)|(j0 & w0 & E0 & _ & Hj0 & _)]; congruence. }
    destruct (nth_error population j) as [x|] eqn:Ex;
      [|apply nth_error_None in Ex; lia].
    destruct (IH (j :: selected) w1 Hn) as (fuel2 & l & w2 & E2).
    { intros i sel Hsel. destruct (Hk (s + i) sel) as (u & Hu & Hfresh).
      - cbn [List.length] in Hsel. lia.
      - exists (u - s). split; [lia|]. rewrite Hs.
        replace (s + (u - s)) with u by lia. exact Hfresh. }
    exists (Nat.max fuel1 fuel2), (x :: l), w2.
    cbn [Random.sample_set_loop]. unfold bind.
    rewrite (fresh_index_mono _ _ _ _ _ _ _ (Nat.le_max_l fuel1 fuel2) E1), Ex.
    rewrite (sample_set_loop_mono _ _ _ _ _ (Nat.le_max_r fuel1 fuel2) _ _ _ _ E2).
    reflexivity.
Qed.


(** [random.sample] of a list without duplicates that is short enough
    for the pool: [k] of its entries, no one twice. *)
Lemma sample_ok (population : list A) (fuel k : nat) (w : world) :
  k <= List.length population -> NoDup population ->
  List.length population <= Random.setsize k ->
  exists selected w',
    Random.sample fuel population k w = (Ok selected, w') /\ log w' = log w /\
    List.length selected = k /\ NoDup selected /\ incl selected population /\
    (0 < k -> hd_error selected
              = nth_error population (draws w 0 mod List.length population)).
Proof.
  intros Hk Hnd Hsmall. unfold Random.sample.
  destruct (Nat.ltb_spec (List.length population) k); [lia|].
  destruct (Nat.leb_spec (List.length population) (Random.setsize k)); [|lia].
  destruct (sample_loop_ok k (List.length population) population w)
    as (l & w' & E & Hlog & Hlen & Hl & Hsub & Hhd); try lia.
  - now rewrite firstn_all.
  - exists l, w'. rewrite firstn_all in Hsub.
    split; [exact E|]. split; [exact Hlog|]. split; [exact Hlen|].
    split; [exact Hl|]. split; [exact Hsub|exact Hhd].
Qed.

End Sampling.

Lemma set_nth_map {A B} (f : A -> B) (l : list A) (j : nat) (y : A) :
  Random.set_nth j (f y) (map f l) = map f (Random.set_nth j y l).
Proof.
  revert j. induction l as [|h t IH]; intros [|j']; simpl; try reflexivity.
  now rewrite IH.
Qed.

(** The loop picks by position: it commutes with relabelling the pool. *)
Lemma sample_loop_map {A B} (f : A -> B) (todo : nat) :
  forall (m : nat) (pool : list A) (w : world),
    Random.sample_loop todo m (map f pool) w =
    match Random.sample_loop todo m pool w with
    | (Ok l, w') => (Ok (map f l), w')
    | (Raise e, w') => (Raise e, w')
    | (Unfinished, w') => (Unfinished, w')
    end.
Proof.
  induction todo as [|todo IH]; intros m pool w; [reflexivity|].
  cbn [Random.sample_loop]. unfold bind, Random.randbelow.
  rewrite !nth_error_map.
  destruct (nth_error pool (draws w 0 mod m)) as [x|]; [|reflexivity].
  destruct (nth_error pool (m - 1)) as [y|]; [|reflexivity].
  cbn [option_map]. rewrite set_nth_map, IH.
  match goal with |- context [Random.sample_loop todo ?a ?b ?c] =>
    destruct (Random.sample_loop todo a b c) as [[l|e|] w'] end; reflexivity.
Qed.

Lemma in_combine_seq {A} (l : list A) (s i : nat) (x : A) :
  In (i, x) (combine (seq s (List.length l)) l) <->
  s <= i /\ nth_error l (i - s) = Some x.
Proof.
  revert s. induction l as [|h t IH]; intros s; simpl.
  - split; [contradiction|]. intros [_ H]. destruct (i - s); discriminate.
  - rewrite IH. split.
    + intros [H|[Hs H]].
      * injection H as -> ->. rewrite Nat.sub_diag. split; [lia|reflexivity].
      * split; [lia|]. replace (i - s) with (S (i - S s)) by lia. exact H.
    + intros [Hs H]. destruct (Nat.eq_dec s i) as [->|Hne].
      * left. rewrite Nat.sub_diag in H. simpl in H. congruence.
      * right. split; [lia|].
        replace (i - s) with (S (i - S s)) in H by lia. exact H.
Qed.

Lemma map_fst_combine_seq {A} (l : list A) (s : nat) :
  map fst (combine (seq s (List.length l)) l) = seq s (List.length l).
Proof.
  revert s. induction l as [|h t IH]; intros s; simpl; [reflexivity|].
  now rewrite IH.
Qed.

Lemma map_snd_combine_seq {A} (l : list A) (s : nat) :
  map snd (combine (seq s (List.length l)) l) = l.
Proof.
  revert s. induction l as [|h t IH]; intros s; simpl; [reflexivity|].
  now rewrite IH.
Qed.

Lemma nth_error_combine_seq {A} (l : list A) (s j i : nat) (x : A) :
  nth_error (combine (seq s (List.length l)) l) j = Some (i, x) -> i = s + j.
Proof.
  revert s j. induction l as [|h t IH]; intros s [|j]; simpl; try discriminate.
  - intros H. injection H as <- _. lia.
  - intros H. apply IH in H. lia.
Qed.





(** [random.sample] on a population that is short enough for the pool
    takes the entries at [k] pairwise different positions, the first of
    them the position drawn first. *)
Lemma sample_pool_positions {A} (population : list A) (fuel k : nat) (w : world) :
  k <= List.length population ->
  List.length population <= Random.setsize k ->
  exists selected positions w',
    Random.sample fuel population k w = (Ok selected, w') /\ log w' = log w /\
    List.length selected = k /\ NoDup positions /\
    map Some selected = map (nth_error population) positions /\
    (0 < k -> hd_error positions = Some (draws w 0 mod List.length population)).
Proof.
  intros Hk Hsmall. set (n := List.length population).
  set (pairs := combine (seq 0 n) population).
  assert (Hlen : List.length pairs = n).
  { unfold pairs. rewrite length_combine, length_seq. apply Nat.min_id. }
  assert (Hnd : NoDup pairs).
  { apply (NoDup_map_inv fst). unfold pairs, n.
    rewrite map_fst_combine_seq. apply seq_NoDup. }
  destruct (sample_ok pairs fuel k w) as (lp & w' & E & Hlog & Hl & Hlp & Hsub & Hhd);
    [lia|assumption|now rewrite Hlen|].
  assert (Hat : forall p, In p lp -> nth_error population (fst p) = Some (snd p)).
  { intros [i x] Hin. apply Hsub in Hin. apply in_combine_seq in Hin.
    destruct Hin as [_ Hin]. now rewrite Nat.sub_0_r in Hin. }
  exists (map snd lp), (map fst lp), w'.
  split; [|split; [exact Hlog|split; [now rewrite length_map|split; [|split]]]].
  - unfold Random.sample in *. rewrite Hlen in E. fold n.
    destruct (Nat.ltb n k); [discriminate|].
    destruct (Nat.leb_spec n (Random.setsize k)); [|lia].
    replace population with (map snd pairs) at 1
      by apply map_snd_combine_seq.
    rewrite sample_loop_map, E. reflexivity.
  - apply NoDup_map_NoDup_ForallPairs; [|assumption].
    intros [i x] [i' x'] H1 H2 Ei. simpl in Ei. subst i'.
    apply Hat in H1, H2. simpl in H1, H2. congruence.
  - rewrite !map_map. apply map_ext_in. intros p Hp. symmetry. now apply Hat.
  - intros Hpos. specialize (Hhd Hpos). rewrite Hlen in Hhd.
    destruct lp as [|[i x] lp']; [simpl in Hl; lia|]. cbn [hd_error] in Hhd.
    symmetry in Hhd. unfold pairs in Hhd.
    apply nth_error_combine_seq in Hhd. cbn [map hd_error fst]. now subst i.
Qed.

(** [random.sample] of [k] entries of a population of at least [k]: it
    is not followed to its end, which takes a population too long for
    the pool and two entries or more to select, or it gives the entries
    at [k] pairwise different positions, the first of them the position
    drawn first. *)
Lemma sample_outcome {A} (population : list A) (fuel k : nat) (w : world) :
  k <= List.length population ->
  (exists w',
      Random.sample fuel population k w = (Unfinished, w') /\ log w' = log w /\
      Random.setsize k < List.length population /\ 1 < k) \/
  (exists selected positions w',
      Random.sample fuel population k w = (Ok selected, w') /\ log w' = log w /\
      List.length selected = k /\ NoDup positions /\
      map Some selected = map (nth_error population) positions /\
      (0 < k -> hd_error positions = Some (draws w 0 mod List.length population))).
Proof.
  intros Hk.
  destruct (Nat.leb_spec (List.length population) (Random.setsize k)) as [Hs|Hs].
  - right. now apply sample_pool_positions.
  - assert (Hn : 0 < List.length population) by (unfold Random.setsize in Hs; lia).
    unfold Random.sample.
    destruct (Nat.ltb_spec (List.length population) k); [lia|].
    destruct (Nat.leb_spec (List.length population) (Random.setsize k)); [lia|].
    destruct (sample_set_loop_outcome population fuel k [] w Hn)
      as [(w' & E & Hlog & Hwhy)
         |(l & ps & w' & E & Hlog & Hlen & Hps & _ & Hmap & Hhd)].
    + left. exists w'. split; [exact E|]. split; [exact Hlog|].
      split; [exact Hs|]. destruct Hwhy as [Hwhy|Hwhy]; [congruence|exact Hwhy].
    + right. exists l, ps, w'. split; [exact E|]. split; [exact Hlog|].
      split; [exact Hlen|]. split; [exact Hps|]. split; [exact Hmap|].
      intros Hpos. apply Hhd; [exact Hpos|]. intros [].
Qed.

(** [random.sample] returns, however long it is followed from some
    length on, when the population is short enough for the pool or the
    draws keep leaving every set of fewer than [k] positions. *)
Lemma sample_returns {A} (population : list A) (k : nat) (w : world) :
  k <= List.length population ->
  List.length population <= Random.setsize k \/
  keeps_drawing (List.length population) k w ->
  exists fuel selected w',
    forall fuel', fuel <= fuel' ->
                  Random.sample fuel' population k w = (Ok selected, w').
Proof.
  intros Hk Hwhy.
  destruct (Nat.leb_spec (List.length population) (Random.setsize k)) as [Hs|Hs].
  - destruct (sample_pool_positions population 0 k w Hk Hs)
      as (selected & _ & w' & E & _).
    exists 0, selected, w'. intros fuel' _. unfold Random.sample in *.
    destruct (Nat.ltb (List.length population) k); [exact E|].
    destruct (Nat.leb (List.length population) (Random.setsize k)) eqn:El;
      [exact E|].
    apply Nat.leb_gt in El. lia.
  - assert (Hn : 0 < List.length population) by (unfold Random.setsize in Hs; lia).
    destruct Hwhy as [Hwhy|Hdraws]; [lia|].
    destruct (sample_set_loop_returns population k [] w Hn Hdraws)
      as (fuel & l & w' & E).
    exists fuel, l, w'. intros fuel' Hle. unfold Random.sample.
    destruct (Nat.ltb_spec (List.length population) k); [lia|].
    destruct (Nat.leb_spec (List.length population) (Random.setsize k)); [lia|].
    exact (sample_set_loop_mono _ _ _ _ _ Hle _ _ _ _ E).
Qed.



Lemma mod_inj_near (n a b : nat) :
  a < b + n -> b < a + n -> a mod n = b mod n -> a = b.
Proof.
  intros Hab Hba E. destruct n as [|n']; [lia|].
  pose proof (Nat.div_mod_eq a (S n')) as Ha.
  pose proof (Nat.div_mod_eq b (S n')) as Hb.
  rewrite E in Ha.
  destruct (Nat.lt_trichotomy (a / S n') (b / S n')) as [H|[H|H]]; nia.
Qed.

(** A random source that gives 0, 1, 2, ... keeps leaving every set of
    fewer than [k] of [n] positions, for [k] up to [n]. *)
Lemma counting_draws_keep_drawing (n k : nat) (lg : list (level * message)) :
  k <= n -> keeps_drawing n k {| draws := fun i => i; log := lg |}.
Proof.
  intros Hk i sel Hsel. cbn [draws].
  destruct (Forall_Exists_dec (fun t => In (t mod n) sel)
              (fun t => in_dec Nat.eq_dec (t mod n) sel) (seq i k))
    as [Hall|Hex].
  - exfalso.
    assert (Hnd : NoDup (map (fun t => t mod n) (seq i k))).
    { apply NoDup_map_NoDup_ForallPairs; [|apply seq_NoDup].
      intros a b Ha Hb E. apply in_seq in Ha, Hb.
      apply (mod_inj_near n); [lia|lia|exact E]. }
    assert (Hincl : incl (map (fun t => t mod n) (seq i k)) sel).
    { intros x Hx. apply in_map_iff in Hx. destruct Hx as (t & <- & Ht).
      rewrite Forall_forall in Hall. exact (Hall t Ht). }
    pose proof (NoDup_incl_length Hnd Hincl) as Hlen.
    rewrite length_map, length_seq in Hlen. lia.
  - apply Exists_exists in Hex. destruct Hex as (t & Ht & Hfresh).
    apply in_seq in Ht. exists t. split; [lia|exact Hfresh].
Qed.

(** ** Normalised relative paths *)

Lemma valid_plain (c : string) : valid_name c = true -> plain c.
Proof.
  intros H. destruct (valid_name_facts c H) as (H1 & H2 & H3 & H4).
  repeat split; assumption.
Qed.

Lemma last_dotdots (k : nat) (names : list string) :
  Forall plain names -> repeat ".." k ++ names <> [] ->
  String.eqb (last (repeat ".." k ++ names) "") ".."
  = match names with [] => true | _ => false end.
Proof.
  intros Hc Hne. destruct names as [|a l].
  - rewrite app_nil_r in *. destruct k as [|k']; [simpl in Hne; congruence|].
    cbn [repeat]. rewrite repeat_cons, last_last. reflexivity.
  - destruct (exists_last (l := a :: l)) as (init & x & E); [discriminate|].
    rewrite E in *. rewrite app_assoc, last_last.
    apply String.eqb_neq. apply Forall_app in Hc. destruct Hc as [_ Hx].
    inversion Hx as [|? ? (_ & _ & Hdd) _]; subst. exact Hdd.
Qed.

Lemma norm_step_rel_dotdot (k : nat) (names : list string) :
  Forall plain names ->
  PosixPath.norm_step false (repeat ".." k ++ names) ".."
  = match names with
    | [] => repeat ".." (S k)
    | _ => repeat ".." k ++ removelast names
    end.
Proof.
  intros Hc. unfold PosixPath.norm_step. cbn [String.eqb Ascii.eqb Bool.eqb andb orb negb].
  destruct (repeat ".." k ++ names) as [|a l] eqn:E.
  - destruct k; [|discriminate]. destruct names; [reflexivity|discriminate].
  - rewrite <- E.
    rewrite last_dotdots by (try assumption; rewrite E; discriminate).
    destruct names as [|b t].
    + rewrite app_nil_r. cbn [repeat]. now rewrite repeat_cons.
    + apply removelast_app. discriminate.
Qed.

Lemma norm_step_rel_plain (acc : list string) (c : string) :
  plain c -> PosixPath.norm_step false acc c = acc ++ [c].
Proof.
  intros ((H1 & _) & H2 & H3). unfold PosixPath.norm_step.
  apply String.eqb_neq in H1, H2, H3. now rewrite H1, H2, H3.
Qed.

Lemma comp_cases (c : string) :
  Str.contains "/" c = false ->
  c = "" \/ c = "." \/ c = ".." \/ plain c.
Proof.
  intros Hs.
  destruct (String.eqb_spec c ""); [tauto|].
  destruct (String.eqb_spec c "."); [tauto|].
  destruct (String.eqb_spec c ".."); [tauto|].
  right; right; right. repeat split; assumption.
Qed.

Lemma length_removelast_cons {A} (a : A) (l : list A) :
  List.length (removelast (a :: l)) = List.length l.
Proof.
  revert a. induction l as [|b l IHl]; intros a; [reflexivity|].
  change (removelast (a :: b :: l)) with (a :: removelast (b :: l)).
  cbn [List.length]. now rewrite IHl.
Qed.

(** The normal form of a relative path is a run of ".." followed by plain
    names; the run is empty exactly when the path never climbs out. *)
Lemma norm_fold_rel (comps : list string) :
  Forall (fun c => Str.contains "/" c = false) comps ->
  forall k names,
    Forall plain names ->
    exists k' names',
      fold_left (PosixPath.norm_step false) comps (repeat ".." k ++ names)
      = repeat ".." k' ++ names' /\
      Forall plain names' /\
      (k' = 0 <-> k = 0 /\ climbs_out (List.length names) comps = false).
Proof.
  induction 1 as [|c comps Hc Hcomps IH]; intros k names Hn.
  - exists k, names. simpl. tauto.
  - cbn [fold_left climbs_out].
    destruct (comp_cases c Hc) as [->|[->|[->|Hp]]].
    + apply IH. assumption.
    + apply IH. assumption.
    + rewrite norm_step_rel_dotdot by assumption.
      cbn [String.eqb Ascii.eqb Bool.eqb andb orb].
      destruct names as [|a l].
      * destruct (IH (S k) [] Hn) as (k' & names' & E & Hn' & Hk).
        rewrite app_nil_r in E. exists k', names'.
        split; [exact E|]. split; [exact Hn'|].
        cbn [List.length]. split.
        -- intros H0. apply Hk in H0. destruct H0; discriminate.
        -- intros [_ H0]. discriminate.
      * destruct (IH k (removelast (a :: l)) (Forall_removelast _ _ Hn))
          as (k' & names' & E & Hn' & Hk).
        exists k', names'.
        split; [exact E|]. split; [exact Hn'|].
        rewrite length_removelast_cons in Hk. exact Hk.
    + rewrite norm_step_rel_plain by assumption.
      pose proof Hp as ((H1 & _) & H2 & H3).
      apply String.eqb_neq in H1, H2, H3. rewrite H1, H2, H3. cbn [orb].
      rewrite <- app_assoc.
      destruct (IH k (names ++ [c])) as (k' & names' & E & Hn' & Hk).
      { apply Forall_app. split; [assumption|]. constructor; [exact Hp|constructor]. }
      exists k', names'.
      split; [exact E|]. split; [exact Hn'|].
      rewrite length_app, Nat.add_1_r in Hk. exact Hk.
Qed.

(** ** Path resolution *)

Lemma path_comps_join (a b : string) :
  Str.startswith "/" b = false ->
  path_comps (PosixPath.join a b) = path_comps a ++ path_comps b.
Proof.
  intros Hb. rewrite (join_relative a b Hb). unfold path_comps, joint, PosixPath.sep.
  destruct a as [|c r].
  - reflexivity.
  - cbn [Str.nonempty negb orb].
    destruct (Str.endswith "/" (String c r)) eqn:E.
    + apply endswith_iff in E. destruct E as [pre E]. rewrite E.
      cbn [String.append]. rewrite append_assoc. cbn [String.append].
      rewrite !split_app_general, !filter_app. cbn [Str.split filter Str.nonempty].
      now rewrite app_nil_r.
    + cbn [String.append]. change (String c (r +++ String "/" b))
        with (String c r +++ String "/" b).
      now rewrite split_app_general, filter_app.
Qed.

Lemma isabs_join_rel (a b : string) :
  a <> "" -> Str.startswith "/" b = false ->
  PosixPath.isabs (PosixPath.join a b) = PosixPath.isabs a.
Proof.
  intros Ha Hb. rewrite (join_relative a b Hb).
  destruct a; [congruence|reflexivity].
Qed.

Lemma walk_path_app (root : node) (l1 l2 : list string) :
  forall loc,
    walk_path root loc (l1 ++ l2) =
    match walk_path root loc l1 with
    | Some loc' => walk_path root loc' l2
    | None => None
    end.
Proof.
  induction l1 as [|c l1 IH]; intros loc; [reflexivity|].
  cbn [app walk_path].
  destruct (tree_lookup root loc) as [[?|r es|]|]; try reflexivity.
  destruct (String.eqb c "."); [apply IH|].
  destruct (String.eqb c ".."); [apply IH|].
  destruct (child c es); [apply IH|reflexivity].
Qed.

(** Plain names only lead downward. *)
Lemma walk_path_plain (root : node) (names : list string) :
  Forall plain names ->
  forall loc loc', walk_path root loc names = Some loc' -> loc' = loc ++ names.
Proof.
  induction 1 as [|c names Hc Hn IH]; intros loc loc' H.
  - simpl in H. injection H as <-. now rewrite app_nil_r.
  - cbn [walk_path] in H.
    destruct (tree_lookup root loc) as [[?|r es|]|]; try discriminate.
    destruct Hc as (_ & H1 & H2). apply String.eqb_neq in H1, H2.
    rewrite H1, H2 in H.
    destruct (child c es); [|discriminate].
    apply IH in H. now rewrite <- app_assoc in H.
Qed.

(** Names that exist below a directory are found by the resolution. *)
Lemma walk_path_down (root : node) (names : list string) :
  Forall (fun x => valid_name x = true) names ->
  forall loc m m',
    tree_lookup root loc = Some m -> tree_lookup m names = Some m' ->
    walk_path root loc names = Some (loc ++ names).
Proof.
  induction 1 as [|c names Hc Hn IH]; intros loc m m' Hloc Hm.
  - simpl. now rewrite app_nil_r.
  - cbn [walk_path]. rewrite Hloc. simpl in Hm.
    destruct m as [?|r es|]; [discriminate| |discriminate].
    destruct (valid_name_facts c Hc) as (_ & _ & H1 & H2).
    apply String.eqb_neq in H1, H2. rewrite H1, H2.
    destruct (child c es) as [ch|] eqn:E; [|discriminate].
    rewrite (IH (loc ++ [c]) ch m').
    + now rewrite <- app_assoc.
    + rewrite tree_lookup_app, Hloc. simpl. now rewrite E.
    + exact Hm.
Qed.

Lemma join_names_relative (names : list string) :
  Forall plain names -> Str.startswith "/" (Str.join "/" names) = false.
Proof.
  intros H. destruct names as [|a l]; [reflexivity|].
  inversion H as [|? ? ((Ha & Hs) & _) _]; subst.
  destruct a as [|c r]; [congruence|].
  assert (E : exists t, Str.join "/" (String c r :: l) = String c t).
  { destruct l; simpl; eexists; reflexivity. }
  destruct E as [t ->]. cbn [Str.startswith].
  simpl in Hs. apply orb_false_iff in Hs. destruct Hs as [Hs _].
  rewrite Ascii.eqb_sym, Hs. reflexivity.
Qed.

Lemma join_names_no_trailing_sep (names : list string) :
  names <> [] -> Forall plain names ->
  Str.endswith "/" (Str.join "/" names) = false.
Proof.
  intros Hne H.
  destruct (exists_last Hne) as (init & x & ->).
  apply Forall_app in H. destruct H as [_ Hx].
  inversion Hx as [|? ? ((Hx1 & Hx2) & _) _]; subst.
  destruct init as [|a l].
  - simpl. now apply endswith_sep_no_sep.
  - rewrite join_snoc by discriminate.
    change (String "/" x) with ("/" +++ x). rewrite <- append_assoc.
    rewrite endswith_char_app by assumption.
    now apply endswith_sep_no_sep.
Qed.

Lemma plain_good (names : list string) : Forall plain names -> Forall good_comp names.
Proof. apply Forall_impl. intros c [H _]. exact H. Qed.

(** A file below a directory is found under the joined path. *)
Lemma os_stat_below (fs : filesystem) (d : string) (locD names : list string)
  (n m : node) :
  os_locate fs d = Some locD -> tree_lookup (fs_root fs) locD = Some n ->
  names <> [] -> Forall (fun x => valid_name x = true) names ->
  tree_lookup n names = Some m ->
  os_stat fs (PosixPath.join d (Str.join "/" names)) = Some m.
Proof.
  intros Hloc Hn Hne Hv Hm.
  assert (Hp : Forall plain names)
    by (eapply Forall_impl; [|exact Hv]; apply valid_plain).
  pose proof (join_names_relative names Hp) as Hrel.
  assert (Hd : d <> "") by (intros ->; discriminate).
  unfold os_stat, os_locate in *.
  destruct d as [|c r]; [congruence|]. cbn [Str.nonempty negb] in Hloc.
  assert (Hj : Str.nonempty (PosixPath.join (String c r) (Str.join "/" names)) = true).
  { rewrite join_relative by assumption. reflexivity. }
  rewrite Hj. cbn [negb].
  rewrite isabs_join_rel, path_comps_join by assumption.
  rewrite walk_path_app.
  destruct (walk_path (fs_root fs)
              (if PosixPath.isabs (String c r) then [] else fs_cwd fs)
              (path_comps (String c r))) as [loc0|]; [|discriminate].
  destruct (tree_lookup (fs_root fs) loc0) as [n0|] eqn:E0; [|discriminate].
  destruct (Str.endswith "/" (String c r) && negb (is_dir n0)); [discriminate|].
  injection Hloc as ->. rewrite Hn in E0. injection E0 as <-.
  unfold path_comps, PosixPath.sep. rewrite split_join_good by now apply plain_good.
  rewrite (walk_path_down _ names Hv locD n m Hn Hm).
  rewrite tree_lookup_app, Hn, Hm.
  rewrite join_relative by assumption.
  rewrite <- append_assoc, endswith_char_app.
  - rewrite join_names_no_trailing_sep by assumption. cbn [andb].
    now rewrite tree_lookup_app, Hn.
  - destruct names as [|a l]; [congruence|].
    inversion Hp as [|? ? ((Ha & _) & _) _]; subst.
    destruct a; [congruence|]. destruct l; simpl; discriminate.
Qed.

(** ** The serving primitive *)

Lemma isabs_normpath (f : string) :
  PosixPath.isabs f = true -> PosixPath.isabs (PosixPath.normpath f) = true.
Proof.
  intros H. unfold PosixPath.normpath, PosixPath.initial_slashes. rewrite H.
  destruct f as [|c r]; [discriminate|]. cbn [Str.nonempty negb].
  destruct (Str.startswith "//" (String c r) && negb (Str.startswith "///" (String c r)));
    reflexivity.
Qed.

(** The normal form of a relative request path. *)
Lemma normpath_relative (f : string) :
  f <> "" -> PosixPath.isabs f = false ->
  exists k names,
    Forall plain names /\
    (k = 0 <-> climbs_out 0 (Str.split "/" f) = false) /\
    PosixPath.normpath f =
    match repeat ".." k ++ names with
    | [] => "."
    | comps => Str.join "/" comps
    end.
Proof.
  intros Hne Habs.
  destruct (norm_fold_rel (Str.split "/" f) (split_parts_no_sep "/" f) 0 [])
    as (k & names & E & Hn & Hk); [constructor|].
  exists k, names. split; [assumption|]. split.
  - rewrite Hk. simpl. tauto.
  - unfold PosixPath.normpath, PosixPath.initial_slashes, PosixPath.norm_comps.
    rewrite Habs. destruct f as [|c r]; [congruence|].
    cbn [Str.nonempty negb String.append]. unfold PosixPath.sep.
    simpl repeat in E. simpl app in E at 1. rewrite E.
    destruct (repeat ".." k ++ names) as [|a l] eqn:Ea; [reflexivity|].
    assert (Ha : a <> "").
    { destruct k as [|k'].
      - simpl in Ea. subst names. inversion Hn as [|? ? ((H & _) & _) _]. exact H.
      - simpl in Ea. injection Ea as <- _. discriminate. }
    destruct a as [|x a']; [congruence|]. destruct l; reflexivity.
Qed.

Lemma join_dotdot_head (rest : list string) :
  String.eqb (Str.join "/" (".." :: rest)) ".."
  || Str.startswith "../" (Str.join "/" (".." :: rest)) = true.
Proof. destruct rest; reflexivity. Qed.

(** What [safe_join] lets through. *)
Lemma safe_join_some (d filename path_str : string) :
  safe_join d filename = Some path_str ->
  exists f',
    path_str = PosixPath.join (root_or_curdir d) f' /\
    (f' = "" \/ f' = "." \/
     exists names, names <> [] /\ Forall plain names /\ f' = Str.join "/" names).
Proof.
  unfold safe_join. fold (root_or_curdir d).
  destruct filename as [|c r].
  - cbn. intros H. injection H as <-. exists "". tauto.
  - cbn [Str.nonempty].
    destruct (PosixPath.isabs (String c r)) eqn:Habs.
    + rewrite (isabs_normpath _ Habs). discriminate.
    + destruct (normpath_relative (String c r)) as (k & names & Hn & Hk & E);
        [discriminate|assumption|].
      rewrite E. destruct k as [|k'].
      * cbn [repeat app]. destruct names as [|a l].
        -- cbn. intros H. injection H as <-. exists ".". tauto.
        -- pose proof (join_names_relative (a :: l) Hn) as Hrel.
           unfold PosixPath.isabs. rewrite Hrel. cbn [orb].
           destruct (_ || _); [discriminate|].
           intros H. injection H as <-. exists (Str.join "/" (a :: l)).
           split; [reflexivity|]. right; right. exists (a :: l).
           split; [discriminate|]. split; [assumption|reflexivity].
      * cbn [repeat app].
        pose proof (join_dotdot_head (repeat ".." k' ++ names)) as Hdd.
        rewrite <- orb_assoc, Hdd, orb_true_r. discriminate.
Qed.

(** A path that escapes the root is refused. *)
Lemma safe_join_escape (d filename : string) :
  escapes_root filename = true -> safe_join d filename = None.
Proof.
  unfold escapes_root, safe_join. intros H.
  destruct filename as [|c r]; [discriminate|]. cbn [Str.nonempty].
  destruct (PosixPath.isabs (String c r)) eqn:Habs.
  - now rewrite (isabs_normpath _ Habs).
  - cbn [orb] in H.
    destruct (normpath_relative (String c r)) as (k & names & Hn & Hk & E);
      [discriminate|assumption|].
    rewrite E. destruct k as [|k'].
    + destruct Hk as [Hk _]. rewrite Hk in H by reflexivity. discriminate.
    + cbn [repeat app].
      pose proof (join_dotdot_head (repeat ".." k' ++ names)) as Hdd.
      now rewrite <- orb_assoc, Hdd, orb_true_r.
Qed.

Lemma endswith_join_empty (a : string) :
  a <> "" -> Str.endswith "/" (PosixPath.join a "") = true.
Proof.
  intros Ha. rewrite join_relative by reflexivity. unfold joint.
  destruct a as [|c r]; [congruence|]. cbn [Str.nonempty negb orb].
  destruct (Str.endswith "/" (String c r)) eqn:E.
  - now rewrite !append_empty_r.
  - apply endswith_iff. exists (String c r). reflexivity.
Qed.

Lemma root_or_curdir_nonempty (d : string) : root_or_curdir d <> "".
Proof. destruct d; discriminate. Qed.

(** A file found under a path that [safe_join] let through lies below
    the root directory. *)
Lemma served_inside (fs : filesystem) (d filename path_str content : string) :
  safe_join d filename = Some path_str ->
  os_stat fs path_str = Some (File content) ->
  exists locD names,
    os_locate fs (root_or_curdir d) = Some locD /\ names <> [] /\
    Forall plain names /\
    tree_lookup (fs_root fs) (locD ++ names) = Some (File content).
Proof.
  intros Hsafe Hstat.
  destruct (safe_join_some _ _ _ Hsafe) as (f' & -> & Hf').
  set (a := root_or_curdir d) in *.
  assert (Ha : a <> "") by apply root_or_curdir_nonempty.
  assert (Hrel : Str.startswith "/" f' = false).
  { destruct Hf' as [->|[->|(names & _ & Hn & ->)]]; try reflexivity.
    now apply join_names_relative. }
  unfold os_stat in Hstat.
  destruct (os_locate fs (PosixPath.join a f')) as [loc|] eqn:Hloc; [|discriminate].
  unfold os_locate in Hloc.
  destruct (Str.nonempty (PosixPath.join a f')); [|discriminate]. cbn [negb] in Hloc.
  rewrite isabs_join_rel, path_comps_join, walk_path_app in Hloc by assumption.
  destruct (walk_path (fs_root fs) (if PosixPath.isabs a then [] else fs_cwd fs)
              (path_comps a)) as [locD|] eqn:HlocD; [|discriminate].
  destruct (walk_path (fs_root fs) locD (path_comps f')) as [loc'|] eqn:Hwalk;
    [|discriminate].
  destruct (tree_lookup (fs_root fs) loc') as [n'|] eqn:Hn'; [|discriminate].
  destruct (Str.endswith "/" (PosixPath.join a f') && negb (is_dir n')) eqn:Hend;
    [discriminate|].
  injection Hloc as <-. rewrite Hn' in Hstat. injection Hstat as ->.
  destruct Hf' as [->|[->|(names & Hne & Hn & ->)]].
  - rewrite endswith_join_empty in Hend by assumption. discriminate.
  - cbn in Hwalk. destruct (tree_lookup (fs_root fs) locD) as [[?|r es|]|] eqn:E;
      try discriminate.
    injection Hwalk as <-. rewrite E in Hn'. discriminate.
  - unfold path_comps, PosixPath.sep in Hwalk.
    rewrite split_join_good in Hwalk by now apply plain_good.
    pose proof (walk_path_plain _ _ Hn _ _ Hwalk) as ->.
    exists locD, names. repeat split; try assumption.
    unfold os_locate. destruct a as [|c r]; [congruence|]. cbn [Str.nonempty negb].
    rewrite HlocD.
    destruct names as [|x l]; [congruence|]. cbn [walk_path] in Hwalk.
    destruct (tree_lookup (fs_root fs) locD) as [[?|r0 es|]|]; try discriminate.
    cbn [is_dir negb]. now rewrite andb_false_r.
Qed.

(** ** The model at work *)

Example normpath_collapses :
  PosixPath.normpath "a//b/./c/../d/" = "a/b/d" /\
  PosixPath.normpath "../../etc/passwd" = "../../etc/passwd" /\
  PosixPath.normpath "/../x" = "/x" /\
  PosixPath.normpath "" = ".".
Proof. repeat split. Qed.

Example relpath_of_joined :
  PosixPath.relpath "/home/u" (PosixPath.join "pics/sub" "a.png") "pics"
  = Ok "sub/a.png" /\
  PosixPath.relpath "/home/u" (PosixPath.join "/srv/pics/" "a.png") "/srv/pics/"
  = Ok "a.png".
Proof. split; reflexivity. Qed.

Example is_image_cases :
  map is_image ["a.PNG"; "b.JpEg"; "notes.txt"; "png"; ".webp"; "x.png.bak"]
  = [true; true; false; false; true; false].
Proof. reflexivity. Qed.

Example scan_of_sample :
  fst (list_image_files sample_fs (Some "/srv/pics/") sample_world)
  = Ok ["a.PNG"; "d.gif"; "trip/b.jpg"; "trip/c.webp"] /\
  fst (list_image_files sample_fs (Some "..") sample_world)
  = Ok ["srv/pics/a.PNG"; "srv/pics/d.gif"; "srv/pics/trip/b.jpg";
        "srv/pics/trip/c.webp"].
Proof. split; reflexivity. Qed.

Example random_images_of_sample :
  forall fuel,
    fst (dispatch (random_images fuel sample_fs sample_app)
           {| draws := fun i => 2 * i + 1; log := [] |})
    = Reply 200 (JsonArray ["http://localhost:5000/images/trip/c.webp";
                            "http://localhost:5000/images/trip/b.jpg"]).
Proof. intros fuel. reflexivity. Qed.

(** Twenty-two images are sampled with a set of positions: the raw draws
    1, 3, 21 select two images, the ones at positions 3 and 21; when
    position 3 is drawn three times before position 5, the second pick
    takes two rejected draws. *)
Example random_images_of_crowd :
  (forall fuel,
      fst (dispatch (random_images fuel crowd_fs crowd_app)
             {| draws := fun i => match i with 0 => 1 | 1 => 3 | _ => 21 end;
                log := [] |})
      = Reply 200 (JsonArray ["http://localhost:5000/images/04.jpg";
                              "http://localhost:5000/images/22.jpg"])) /\
  (let w := {| draws := fun i => match i with 0 => 1 | 4 => 5 | _ => 3 end;
               log := [] |} in
   fst (dispatch (random_images 1 crowd_fs crowd_app) w) = NoAnswer /\
   fst (dispatch (random_images 2 crowd_fs crowd_app) w)
   = Reply 200 (JsonArray ["http://localhost:5000/images/04.jpg";
                           "http://localhost:5000/images/06.jpg"])).
Proof.
  split; [intros fuel; destruct fuel; reflexivity|].
  split; reflexivity.
Qed.

(** * The claims *)

Lemma regular_lookup (names : list string) :
  forall n m,
    all_regular n = true -> tree_lookup n names = Some m -> is_dir m = false ->
    exists content, m = File content.
Proof.
  induction names as [|name names IH]; intros n m Hreg Hl Hm.
  - simpl in Hl. injection Hl as <-.
    destruct n as [c|r es|]; [now exists c|discriminate|discriminate].
  - simpl in Hl. destruct n as [c|r es|]; [discriminate| |discriminate].
    destruct (child name es) as [ch|] eqn:E; [|discriminate].
    apply child_In in E. cbn [all_regular] in Hreg.
    rewrite forallb_forall in Hreg. specialize (Hreg _ E). simpl in Hreg.
    exact (IH ch m Hreg Hl Hm).
Qed.




(** C6.  When the root path names nothing, or names a directory that
    cannot be listed, the scanner returns the empty list without raising,
    and all it leaves behind is its log record; the client gets the empty
    list, not an error page. *)
Theorem scan_of_missing_or_unreadable_root
  (fs : filesystem) (d : string) (w : world) :
  os_stat fs d = None \/ (exists es, os_stat fs d = Some (Dir false es)) ->
  list_image_files fs (Some d) w
  = (Ok [], logged w (INFO, FoundImages 0 (Some d))) /\
  forall fuel app,
    IMAGE_DIR app = Some d ->
    dispatch (random_images fuel fs app) w
    = (Reply 200 (JsonArray []),
       logged (logged w (INFO, FoundImages 0 (Some d)))
              (ERROR, NoImagesFound (Some d))).
Proof.
  intros H.
  assert (E : list_image_files fs (Some d) w
              = (Ok [], logged w (INFO, FoundImages 0 (Some d)))).
  { destruct H as [H|[es H]]; unfold list_image_files, os_walk, bind, ret;
      rewrite H; reflexivity. }
  split; [exact E|].
  intros fuel app Hdir. unfold dispatch, random_images, bind. rewrite Hdir, E.
  reflexivity.
Qed.

Lemma scan_of_missing_or_unreadable_root_witness :
  list_image_files sample_fs (Some "/srv/locked") sample_world
  = (Ok [], logged sample_world (INFO, FoundImages 0 (Some "/srv/locked"))) /\
  forall fuel app,
    IMAGE_DIR app = Some "/srv/locked" ->
    dispatch (random_images fuel sample_fs app) sample_world
    = (Reply 200 (JsonArray []),
       logged (logged sample_world (INFO, FoundImages 0 (Some "/srv/locked")))
              (ERROR, NoImagesFound (Some "/srv/locked"))).
Proof.
  apply (scan_of_missing_or_unreadable_root sample_fs "/srv/locked" sample_world).
  right. eexists. reflexivity.
Defined.

(** C4.  When the scan finds no image, the selection is empty and the
    answer of /api/random-images is the empty JSON array with status
    200. *)
Theorem no_images_gives_empty_array
  (fuel : nat) (fs : filesystem) (app : application) (w w1 : world) :
  list_image_files fs (IMAGE_DIR app) w = (Ok [], w1) ->
  dispatch (random_images fuel fs app) w
  = (Reply 200 (JsonArray []), logged w1 (ERROR, NoImagesFound (IMAGE_DIR app))).
Proof.
  intros H. unfold dispatch, random_images, bind. rewrite H. reflexivity.
Qed.

Lemma no_images_gives_empty_array_witness :
  dispatch (random_images 0 sample_fs
              {| IMAGE_DIR := Some "/srv/empty"; url_for := url_for sample_app |})
           sample_world
  = (Reply 200 (JsonArray []),
     logged (logged sample_world (INFO, FoundImages 0 (Some "/srv/empty")))
            (ERROR, NoImagesFound (Some "/srv/empty"))).
Proof.
  apply (no_images_gives_empty_array 0 sample_fs
           {| IMAGE_DIR := Some "/srv/empty"; url_for := url_for sample_app |}
           sample_world).
  reflexivity.
Defined.

(** C5.  With the variable IMAGE_DIR absent from the environment the
    absence is logged as an error when the module loads, and a request
    to /api/random-images then ends in a [TypeError] raised by [os.walk]:
    the answer is a 500 page, not the empty list.  With the variable set
    to the empty string, which line 14 treats alike, the answer is the
    empty list. *)
Theorem unset_image_dir_is_a_server_error
  (getenv : string -> option string) (fs : filesystem)
  (url : string -> string) (w : world) (fuel : nat) :
  let absent := load_IMAGE_DIR (unset "IMAGE_DIR" getenv) in
  let empty := load_IMAGE_DIR (fun _ => Some "") in
  fst absent = None /\
  snd absent = [(ERROR, ImageDirNotSet)] /\
  list_image_files fs (fst absent) w = (Raise TypeError, w) /\
  dispatch (random_images fuel fs {| IMAGE_DIR := fst absent; url_for := url |}) w
  = (ErrorPage 500, w) /\
  snd empty = [(ERROR, ImageDirNotSet)] /\
  fst (dispatch (random_images fuel fs {| IMAGE_DIR := fst empty; url_for := url |}) w)
  = Reply 200 (JsonArray []).
Proof.
  repeat split.
Qed.

(** ** The picker *)

Lemma map_nth_error_seq {A} (l : list A) :
  map (nth_error l) (seq 0 (List.length l)) = map Some l.
Proof.
  induction l as [|a l IH]; [reflexivity|].
  cbn [List.length seq map nth_error]. f_equal.
  rewrite <- seq_shift, map_map. exact IH.
Qed.

Lemma positions_incl {A} (images selected : list A) (positions : list nat) :
  map Some selected = map (nth_error images) positions -> incl selected images.
Proof.
  intros E x Hx.
  assert (H : In (Some x) (map (nth_error images) positions)).
  { rewrite <- E. now apply in_map. }
  apply in_map_iff in H. destruct H as (i & Hi & _).
  exact (nth_error_In _ _ Hi).
Qed.

Lemma positions_NoDup {A} (images selected : list A) (positions : list nat) :
  NoDup positions ->
  map Some selected = map (nth_error images) positions ->
  NoDup images -> NoDup selected.
Proof.
  intros Hp E Hi. apply (NoDup_map_inv Some). rewrite E.
  apply NoDup_map_NoDup_ForallPairs; [|assumption].
  intros i j Hin _ Eij.
  assert (H : In (nth_error images i) (map Some selected)).
  { rewrite E. now apply in_map. }
  apply in_map_iff in H. destruct H as (x & Hx & _).
  rewrite NoDup_nth_error in Hi. apply Hi; [|assumption].
  apply nth_error_Some. congruence.
Qed.

Lemma setsize_small (k : nat) : k <= 5 -> Random.setsize k = 21.
Proof.
  intros H. unfold Random.setsize. destruct (Nat.ltb_spec 5 k); lia.
Qed.

Lemma keeps_drawing_later (n k s : nat) (w w' : world) :
  (forall i, draws w' i = draws w (s + i)) ->
  keeps_drawing n k w -> keeps_drawing n k w'.
Proof.
  intros Hs H i sel Hsel. destruct (H (s + i) sel Hsel) as (t & Ht & Hfresh).
  exists (t - s). split; [lia|]. rewrite Hs.
  replace (s + (t - s)) with t by lia. exact Hfresh.
Qed.

(** Lines 44-52 on a non-empty scan: the count is drawn, then the
    selection is made. *)
Lemma random_images_unfold
  (fuel : nat) (fs : filesystem) (app : application) (w w1 : world)
  (images : list string) :
  list_image_files fs (IMAGE_DIR app) w = (Ok images, w1) ->
  images <> [] ->
  random_images fuel fs app w
  = match (if Nat.leb (1 + draws w1 0 mod 5) (List.length images)
           then Random.sample fuel images (1 + draws w1 0 mod 5)
           else ret images)
            {| draws := fun i => draws w1 (S i); log := log w1 |} with
    | (Ok selected, w2) => (Ok (jsonify (map (url_for app) selected)), w2)
    | (Raise e, w2) => (Raise e, w2)
    | (Unfinished, w2) => (Unfinished, w2)
    end.
Proof.
  intros Hscan Hne. unfold random_images, bind. rewrite Hscan.
  destruct images as [|a l] eqn:Ei; [congruence|]. rewrite <- Ei in *.
  unfold Random.randint, bind, Random.randbelow, ret.
  cbn [Nat.sub Nat.add]. reflexivity.
Qed.

(** The picker on a non-empty scan: it is not followed to its end, which
    takes more than 21 images and a count of two or more, or it selects
    [min count K] entries at pairwise different positions, the first of
    them at the position drawn after the count. *)
Lemma random_images_selects
  (fuel : nat) (fs : filesystem) (app : application) (w w1 : world)
  (images : list string) :
  list_image_files fs (IMAGE_DIR app) w = (Ok images, w1) ->
  images <> [] ->
  let K := List.length images in
  let count := 1 + draws w1 0 mod 5 in
  (exists w2,
      random_images fuel fs app w = (Unfinished, w2) /\ log w2 = log w1 /\
      21 < K /\ 2 <= count <= K) \/
  (exists selected positions w2,
      random_images fuel fs app w
      = (Ok (jsonify (map (url_for app) selected)), w2) /\
      log w2 = log w1 /\
      List.length selected = Nat.min count K /\
      NoDup positions /\
      map Some selected = map (nth_error images) positions /\
      (K < count -> selected = images) /\
      (count <= K -> hd_error positions = Some (draws w1 1 mod K))).
Proof.
  intros Hscan Hne K count.
  rewrite (random_images_unfold fuel fs app w w1 images Hscan Hne).
  fold count. fold K.
  set (w1' := {| draws := fun i => draws w1 (S i); log := log w1 |}).
  assert (Hmod : draws w1 0 mod 5 < 5) by (apply Nat.mod_upper_bound; lia).
  destruct (Nat.leb_spec count K) as [Hle|Hgt].
  - destruct (sample_outcome images fuel count w1' Hle)
      as [(w2 & E & Hlog & Hbig & Hk)
         |(selected & positions & w2 & E & Hlog & Hlen & Hp & Hmap & Hhd)];
      rewrite E.
    + left. exists w2. split; [reflexivity|]. split; [exact Hlog|].
      rewrite setsize_small in Hbig by (unfold count; lia). fold K in Hbig. lia.
    + right. exists selected, positions, w2. split; [reflexivity|].
      split; [exact Hlog|]. split; [fold K in Hlen; lia|]. split; [exact Hp|].
      split; [exact Hmap|]. split; [lia|].
      intros _. apply Hhd. unfold count. lia.
  - right. exists images, (seq 0 K), w1'. split; [reflexivity|].
    split; [reflexivity|]. split; [lia|]. split; [apply seq_NoDup|].
    split; [symmetry; apply map_nth_error_seq|]. split; [reflexivity|lia].
Qed.

(** The picker returns, however long it is followed from some length
    on, when there are fewer images than the count or at most 21, or
    when the draws keep leaving the positions already selected. *)
Lemma random_images_returns
  (fs : filesystem) (app : application) (w w1 : world) (images : list string) :
  list_image_files fs (IMAGE_DIR app) w = (Ok images, w1) ->
  images <> [] ->
  let K := List.length images in
  let count := 1 + draws w1 0 mod 5 in
  K < count \/ K <= 21 \/ keeps_drawing K count w1 ->
  exists fuel selected w2,
    forall fuel',
      fuel <= fuel' ->
      random_images fuel' fs app w
      = (Ok (jsonify (map (url_for app) selected)), w2).
Proof.
  intros Hscan Hne K count Hwhy.
  set (w1' := {| draws := fun i => draws w1 (S i); log := log w1 |}).
  assert (Hmod : draws w1 0 mod 5 < 5) by (apply Nat.mod_upper_bound; lia).
  destruct (Nat.leb_spec count K) as [Hle|Hgt].
  - destruct (sample_returns images count w1' Hle) as (fuel & selected & w2 & Hrun).
    { destruct Hwhy as [H|[H|H]]; [lia|left|right].
      - rewrite setsize_small by (unfold count; lia). exact H.
      - apply (keeps_drawing_later _ _ 1 w1); [reflexivity|exact H]. }
    exists fuel, selected, w2. intros fuel' Hf.
    rewrite (random_images_unfold fuel' fs app w w1 images Hscan Hne).
    fold count. fold K. destruct (Nat.leb_spec count K); [|lia].
    fold w1'. now rewrite (Hrun fuel' Hf).
  - exists 0, images, w1'. intros fuel' _.
    rewrite (random_images_unfold fuel' fs app w w1 images Hscan Hne).
    fold count. fold K. destruct (Nat.leb_spec count K); [lia|reflexivity].
Qed.

Lemma scan_result_NoDup
  (fs : filesystem) (dir : option string) (w w1 : world) (images : list string) :
  wf_node (fs_root fs) = true ->
  list_image_files fs dir w = (Ok images, w1) -> NoDup images.
Proof.
  intros Hwf H. destruct dir as [d|]; [|discriminate].
  destruct (os_stat fs d) as [n|] eqn:E.
  - rewrite (list_image_files_found fs d n w (os_stat_wf _ _ _ Hwf E) E) in H.
    injection H as <- _. apply scanned_NoDup. exact (os_stat_wf _ _ _ Hwf E).
  - rewrite (list_image_files_missing fs d w E) in H. injection H as <- _.
    constructor.
Qed.








(** With twenty-two images and a random source that gives 0, 1, 2, ...
    the picker returns. *)
Example picker_returns_on_varying_draws :
  exists fuel selected w2,
    forall fuel',
      fuel <= fuel' ->
      random_images fuel' crowd_fs crowd_app {| draws := fun i => i; log := [] |}
      = (Ok (jsonify (map (url_for crowd_app) selected)), w2).
Proof.
  apply (random_images_returns crowd_fs crowd_app
           {| draws := fun i => i; log := [] |}
           (logged {| draws := fun i => i; log := [] |}
                   (INFO, FoundImages 22 (Some "/crowd")))
           (map (fun s => s +++ ".jpg") crowd_names));
    [reflexivity|discriminate|].
  right; right. apply counting_draws_keep_drawing. vm_compute. lia.
Qed.

Lemma png_is_image (f : string) :
  Str.endswith ".png" f = true -> is_image f = true.
Proof.
  intros H. apply endswith_iff in H. destruct H as [pre ->].
  unfold is_image, Str.endswith_any, allowed_extensions. cbn [existsb].
  replace (Str.endswith ".png" (Str.lower (pre +++ ".png"))) with true.
  - now rewrite !orb_true_r.
  - symmetry. apply endswith_iff. exists (Str.lower pre). now rewrite lower_app.
Qed.

(** C9.  With a listable root directory that holds exactly three files,
    all named *.png, every call of /api/random-images answers with
    between one and three URLs, each the URL of one of the three names,
    and no URL twice. *)
Theorem three_png_files_end_to_end
  (fs : filesystem) (app : application) (d : string)
  (n1 n2 n3 c1 c2 c3 : string) (w : world) (fuel : nat) :
  wf_node (fs_root fs) = true ->
  IMAGE_DIR app = Some d ->
  os_stat fs d = Some (Dir true [(n1, File c1); (n2, File c2); (n3, File c3)]) ->
  Str.endswith ".png" n1 = true ->
  Str.endswith ".png" n2 = true ->
  Str.endswith ".png" n3 = true ->
  (forall a b, url_for app a = url_for app b -> a = b) ->
  exists urls w',
    dispatch (random_images fuel fs app) w = (Reply 200 (JsonArray urls), w') /\
    1 <= List.length urls <= 3 /\
    incl urls (map (url_for app) [n1; n2; n3]) /\
    NoDup urls.
Proof.
  intros Hwf Hdir Hstat H1 H2 H3 Hinj.
  pose proof (os_stat_wf _ _ _ Hwf Hstat) as Hwfn.
  pose proof (list_image_files_found fs d _ w Hwfn Hstat) as Hscan.
  pose proof (scanned_NoDup _ Hwfn) as Hnd.
  cbn [scan_names filenames filter map snd fst is_dir negb flat_map List.app]
    in Hscan, Hnd.
  rewrite (png_is_image _ H1), (png_is_image _ H2), (png_is_image _ H3) in Hscan, Hnd.
  cbn [map List.app Str.join List.length] in Hscan, Hnd.
  rewrite <- Hdir in Hscan at 1.
  destruct (random_images_selects fuel fs app w _ _ Hscan)
    as [(w2 & _ & _ & Hbig & _)
       |(selected & positions & w2 & E & _ & Hlen & Hp & Hmap & _)];
    [discriminate|cbn [List.length] in Hbig; lia|].
  exists (map (url_for app) selected), w2.
  unfold dispatch. rewrite E. split; [reflexivity|].
  assert (Hmod : draws (logged w (INFO, FoundImages 3 (Some d))) 0 mod 5 < 5)
    by (apply Nat.mod_upper_bound; lia).
  cbn [List.length] in Hlen. rewrite length_map. repeat split; try lia.
  - apply incl_map. exact (positions_incl _ _ _ Hmap).
  - apply NoDup_map_NoDup_ForallPairs.
    + intros a b _ _. apply Hinj.
    + exact (positions_NoDup _ _ _ Hp Hmap Hnd).
Qed.

Lemma append_inj_l (a x y : string) : a +++ x = a +++ y -> x = y.
Proof. induction a as [|c a IH]; simpl; intros H; [assumption|]. injection H. exact IH. Qed.

Lemma three_png_files_end_to_end_witness :
  exists urls w',
    dispatch (random_images 0 album_fs
                {| IMAGE_DIR := Some "album"; url_for := url_for sample_app |})
             sample_world
    = (Reply 200 (JsonArray urls), w') /\
    1 <= List.length urls <= 3 /\
    incl urls (map (url_for sample_app) ["one.png"; "two.png"; "three.png"]) /\
    NoDup urls.
Proof.
  apply (three_png_files_end_to_end album_fs
           {| IMAGE_DIR := Some "album"; url_for := url_for sample_app |}
           "album" "one.png" "two.png" "three.png" "1" "2" "3" sample_world 0);
    try reflexivity.
  intros a b. apply append_inj_l.
Defined.

(** ** The image endpoint *)

Lemma climbs_out_plain (names : list string) :
  Forall plain names -> forall depth, climbs_out depth names = false.
Proof.
  induction 1 as [|c names ((H1 & _) & H2 & H3) Hn IH]; intros depth; [reflexivity|].
  cbn [climbs_out]. apply String.eqb_neq in H1, H2, H3.
  rewrite H1, H2, H3. apply IH.
Qed.

Lemma norm_fold_plain (names acc : list string) :
  Forall plain names ->
  fold_left (PosixPath.norm_step false) names acc = acc ++ names.
Proof.
  intros H. revert acc. induction H as [|c names Hc Hn IH]; intros acc.
  - simpl. now rewrite app_nil_r.
  - cbn [fold_left]. rewrite norm_step_rel_plain by assumption.
    rewrite IH, <- app_assoc. reflexivity.
Qed.

(** A path made of plain names is its own normal form and is let
    through. *)
Lemma safe_join_names (d : string) (names : list string) :
  d <> "" -> names <> [] -> Forall plain names ->
  safe_join d (Str.join "/" names) = Some (PosixPath.join d (Str.join "/" names)).
Proof.
  intros Hd Hne Hn. set (p := Str.join "/" names).
  pose proof (join_names_relative names Hn) as Hrel. fold p in Hrel.
  assert (Hsplit : Str.split "/" p = names).
  { apply split_join; [assumption|].
    eapply Forall_impl; [|exact Hn]. intros c ((_ & H) & _). exact H. }
  assert (Hp : p <> "").
  { intros E. rewrite E in Hsplit. cbn in Hsplit. subst names.
    inversion Hn as [|? ? ((H & _) & _) _]. congruence. }
  assert (Hnorm : PosixPath.normpath p = p).
  { unfold PosixPath.normpath, PosixPath.initial_slashes, PosixPath.norm_comps,
      PosixPath.isabs, PosixPath.sep.
    rewrite Hrel, Hsplit, norm_fold_plain by assumption.
    cbn [List.app String.append]. fold p.
    destruct p; [congruence|reflexivity]. }
  unfold safe_join. rewrite Hnorm.
  replace (Str.nonempty d) with true by (destruct d; [congruence|reflexivity]).
  replace (Str.nonempty p) with true by (destruct p; [congruence|reflexivity]).
  unfold PosixPath.isabs. rewrite Hrel. cbn [orb].
  destruct (String.eqb_spec p "..") as [E|_].
  { rewrite E in Hsplit. cbn in Hsplit. subst names.
    inversion Hn as [|? ? (_ & _ & H) _]. congruence. }
  destruct (Str.startswith "../" p) eqn:Es; [|reflexivity].
  apply startswith_iff in Es. destruct Es as [r Er]. rewrite Er in Hsplit.
  cbn in Hsplit. destruct (Str.split "/" r); subst names;
    inversion Hn as [|? ? (_ & _ & H) _]; congruence.
Qed.

(** C2.  Whatever path is requested, the image endpoint answers with a
    404 page or with the bytes of a file that lies below the root
    directory; a path that is absolute or climbs above the root on the
    way, such as ../../etc/passwd, gets the 404 page. *)
Theorem image_endpoint_stays_inside_root
  (fs : filesystem) (app : application) (d filename : string) (w : world) :
  IMAGE_DIR app = Some d ->
  (escapes_root filename = true ->
   dispatch (get_image fs app filename) w = (ErrorPage 404, w)) /\
  (dispatch (get_image fs app filename) w = (ErrorPage 404, w) \/
   exists content locD names,
     dispatch (get_image fs app filename) w = (Reply 200 (FileBytes content), w) /\
     os_locate fs (root_or_curdir d) = Some locD /\
     names <> [] /\ Forall plain names /\
     tree_lookup (fs_root fs) (locD ++ names) = Some (File content)).
Proof.
  intros Hdir. unfold dispatch, get_image, send_from_directory, isfile, send_file.
  rewrite Hdir. split.
  - intros Hesc. now rewrite (safe_join_escape d filename Hesc).
  - destruct (safe_join d filename) as [path_str|] eqn:Hsafe; [|now left].
    destruct (os_stat fs path_str) as [[content|r es|]|] eqn:Hstat;
      [|now left|now left|now left].
    right. destruct (served_inside fs d filename path_str content Hsafe Hstat)
      as (locD & names & H1 & H2 & H3 & H4).
    exists content, locD, names. repeat split; assumption.
Qed.

Lemma image_endpoint_stays_inside_root_witness :
  (escapes_root "../../etc/passwd" = true ->
   dispatch (get_image sample_fs sample_app "../../etc/passwd") sample_world
   = (ErrorPage 404, sample_world)) /\
  (dispatch (get_image sample_fs sample_app "../../etc/passwd") sample_world
   = (ErrorPage 404, sample_world) \/
   exists content locD names,
     dispatch (get_image sample_fs sample_app "../../etc/passwd") sample_world
     = (Reply 200 (FileBytes content), sample_world) /\
     os_locate sample_fs (root_or_curdir "/srv/pics") = Some locD /\
     names <> [] /\ Forall plain names /\
     tree_lookup (fs_root sample_fs) (locD ++ names) = Some (File content)).
Proof.
  apply (image_endpoint_stays_inside_root sample_fs sample_app "/srv/pics"
           "../../etc/passwd" sample_world).
  reflexivity.
Defined.

(** The file the traversal aims at exists, and is not served. *)
Example traversal_is_refused :
  os_stat sample_fs "/srv/pics/../../etc/passwd" = Some (File "root:x:0:0") /\
  escapes_root "../../etc/passwd" = true /\
  fst (dispatch (get_image sample_fs sample_app "../../etc/passwd") sample_world)
  = ErrorPage 404 /\
  fst (dispatch (get_image sample_fs sample_app "trip/../a.PNG") sample_world)
  = Reply 200 (FileBytes "A").
Proof. repeat split. Qed.

(** C10, against the claim as written: the scan of a directory that
    holds a FIFO named pipe.png returns that path, and the request for
    it is answered with the 404 page, because what the path names is not
    a regular file.  So the reading above does not hold. *)
Lemma scanned_fifo_is_not_served :
  fst (list_image_files fifo_fs (IMAGE_DIR fifo_app) sample_world)
  = Ok ["a.png"; "pipe.png"] /\
  os_stat fifo_fs (PosixPath.join "pics" "pipe.png") = Some Other /\
  fst (dispatch (get_image fifo_fs fifo_app "pipe.png") sample_world)
  = ErrorPage 404 /\
  ~ scanned_paths_are_all_served.
Proof.
  split; [reflexivity|]. split; [reflexivity|]. split; [reflexivity|].
  intros H.
  destruct (H fifo_fs fifo_app "pics" sample_world _ ["a.png"; "pipe.png"]
              "pipe.png" eq_refl eq_refl eq_refl) as (content & E).
  - right. now left.
  - specialize (E sample_world). discriminate.
Qed.

(** C10, amended.  Every path the scanner returns for the root directory
    is made of plain names, does not escape the root, and names an entry
    below the root that is not a directory; the image endpoint answers a
    request for it with the bytes of that entry when it is a regular
    file, and with the 404 page when it is not. *)
Theorem scanned_paths_are_served
  (fs : filesystem) (app : application) (d : string) (w w1 : world)
  (images : list string) (p : string) :
  wf_node (fs_root fs) = true ->
  IMAGE_DIR app = Some d ->
  list_image_files fs (Some d) w = (Ok images, w1) ->
  In p images ->
  escapes_root p = false /\
  exists locD names m,
    p = Str.join "/" names /\ names <> [] /\ Forall plain names /\
    os_locate fs d = Some locD /\
    tree_lookup (fs_root fs) (locD ++ names) = Some m /\ is_dir m = false /\
    os_stat fs (PosixPath.join d p) = Some m /\
    forall w2,
      dispatch (get_image fs app p) w2
      = (match m with
         | File content => Reply 200 (FileBytes content)
         | _ => ErrorPage 404
         end, w2).
Proof.
  intros Hwf Hdir Hscan Hin.
  destruct (os_stat fs d) as [n|] eqn:Hstat.
  2:{ rewrite (list_image_files_missing fs d w Hstat) in Hscan.
      injection Hscan as <- _. contradiction. }
  pose proof (os_stat_wf _ _ _ Hwf Hstat) as Hwfn.
  rewrite (list_image_files_found fs d n w Hwfn Hstat) in Hscan.
  injection Hscan as <- _.
  apply in_map_iff in Hin. destruct Hin as (names0 & <- & Hin).
  destruct (scan_names_sound n Hwfn _ _ Hin)
    as (names & m & -> & Hne & Hl & Hm & _).
  cbn [List.app].
  pose proof (tree_lookup_valid _ _ _ Hwfn Hl) as Hv.
  assert (Hp : Forall plain names)
    by (eapply Forall_impl; [|exact Hv]; apply valid_plain).
  destruct (os_stat_lookup _ _ _ Hstat) as (locD & HlocD & HnD).
  pose proof (os_stat_below fs d locD names n m HlocD HnD Hne Hv Hl) as Hfile.
  split.
  - unfold escapes_root, PosixPath.isabs.
    rewrite (join_names_relative names Hp). cbn [orb].
    rewrite split_join; [now apply climbs_out_plain|assumption|].
    eapply Forall_impl; [|exact Hp]. intros c ((_ & H) & _). exact H.
  - exists locD, names, m. split; [reflexivity|]. split; [exact Hne|].
    split; [exact Hp|]. split; [exact HlocD|].
    split; [now rewrite tree_lookup_app, HnD|]. split; [exact Hm|].
    split; [exact Hfile|].
    intros w2. unfold dispatch, get_image, send_from_directory, isfile, send_file.
    rewrite Hdir, safe_join_names, Hfile; try assumption.
    + destruct m; reflexivity.
    + exact (os_stat_nonempty _ _ _ Hstat).
Qed.

Lemma scanned_paths_are_served_witness :
  escapes_root "trip/b.jpg" = false /\
  exists locD names m,
    "trip/b.jpg" = Str.join "/" names /\ names <> [] /\ Forall plain names /\
    os_locate sample_fs "/srv/pics" = Some locD /\
    tree_lookup (fs_root sample_fs) (locD ++ names) = Some m /\ is_dir m = false /\
    os_stat sample_fs (PosixPath.join "/srv/pics" "trip/b.jpg") = Some m /\
    forall w2,
      dispatch (get_image sample_fs sample_app "trip/b.jpg") w2
      = (match m with
         | File content => Reply 200 (FileBytes content)
         | _ => ErrorPage 404
         end, w2).
Proof.
  apply (scanned_paths_are_served sample_fs sample_app "/srv/pics" sample_world
           (logged sample_world (INFO, FoundImages 4 (Some "/srv/pics")))
           ["a.PNG"; "d.gif"; "trip/b.jpg"; "trip/c.webp"] "trip/b.jpg");
    try reflexivity.
  simpl. tauto.
Defined.

(** ** The renderer *)

Module RendererFacts.
Import Renderer.

Lemma floor_div_iff (a b i : N) :
  (0 < b)%N -> ((a / b = i)%N <-> (i * b <= a < (i + 1) * b)%N).
Proof.
  intros Hb. split.
  - intros <-. split.
    + rewrite N.mul_comm. apply N.Div0.mul_div_le.
    + rewrite N.add_1_r, N.mul_comm. apply N.mul_succ_div_gt. lia.
  - intros [H1 H2]. symmetry.
    apply (N.div_unique a b i (a - i * b)); lia.
Qed.

(** [Math.floor(Math.random() * len)] is [i] exactly when [Math.random()]
    lies in the [i]-th of [len] intervals of equal width. *)
Lemma random_index_iff (random : N) (len i : nat) :
  random_index random len = i <->
  (N.of_nat i * 2 ^ 53 <= (random mod 2 ^ 53) * N.of_nat len
   < (N.of_nat i + 1) * 2 ^ 53)%N.
Proof.
  unfold random_index. rewrite <- floor_div_iff by reflexivity.
  split; [intros <-; now rewrite N2Nat.id|intros ->; apply Nat2N.id].
Qed.

Lemma random_index_lt (random : N) (len : nat) :
  0 < len -> random_index random len < len.
Proof.
  intros Hlen.
  assert (H : (N.of_nat (random_index random len) < N.of_nat len)%N).
  { unfold random_index. rewrite N2Nat.id.
    apply N.Div0.div_lt_upper_bound.
    apply N.mul_lt_mono_pos_r; [lia|].
    apply N.mod_upper_bound. discriminate. }
  lia.
Qed.

Lemma choose_from (templates : list (list rect)) (random : N) :
  templates <> [] ->
  exists layout,
    nth_error templates (random_index random (List.length templates)) = Some layout /\
    In layout templates.
Proof.
  intros Hne.
  assert (Hlt : random_index random (List.length templates) < List.length templates).
  { apply random_index_lt. destruct templates; [congruence|simpl; lia]. }
  destruct (nth_error templates (random_index random (List.length templates)))
    as [layout|] eqn:E.
  - exists layout. split; [reflexivity|]. exact (nth_error_In _ _ E).
  - apply nth_error_None in E. lia.
Qed.

Lemma layouts_nonempty (count : nat) (templates : list (list rect)) :
  layouts count = Some templates -> templates <> [].
Proof.
  intros H.
  destruct count as [|[|[|[|[|[|c]]]]]]; simpl in H; try discriminate;
    injection H as <-; discriminate.
Qed.

(** Every candidate of a table entry is chosen for some value of
    [Math.random()]. *)
Lemma every_candidate_is_chosen
  (count : nat) (templates : list (list rect)) (candidate : list rect) :
  layouts count = Some templates -> In candidate templates ->
  exists random, choose_layout count random = Some candidate.
Proof.
  intros Ht Hin.
  destruct count as [|[|[|[|[|[|c]]]]]]; simpl in Ht; try discriminate;
    injection Ht as <-; simpl in Hin;
    repeat (destruct Hin as [<-|Hin];
            [first [exists 0%N; vm_compute; reflexivity
                   |exists (2 ^ 52)%N; vm_compute; reflexivity]|]);
    contradiction.
Qed.

(** C7.  For a selection of N >= 1 images the renderer finds a layout:
    one of the candidates of the table entry for N, namely the
    candidate at index [Math.floor(Math.random() * length)], which is the
    i-th of them exactly when Math.random() falls into the i-th of
    equally wide intervals, so that every candidate is the layout for
    some value of Math.random(); and the single full-screen slot of the
    entry for 1 when the table has no entry for N. *)
Theorem renderer_locates_a_layout
  (imageUrls : list string) (random : N) (pg : page) :
  1 <= List.length imageUrls ->
  let count := List.length imageUrls in
  exists layout,
    choose_layout count random = Some layout /\
    fetchAndDisplayImages (Parsed imageUrls) random pg
    = (let (shown, thrown) := place (Some layout) 0 imageUrls [] in
       {| container := shown;
          console := console pg ++ match thrown with
                                   | Some err => [err]
                                   | None => []
                                   end |}) /\
    (forall templates,
        layouts count = Some templates -> In layout templates) /\
    (forall templates i,
        layouts count = Some templates ->
        (random_index random (List.length templates) = i <->
         (N.of_nat i * 2 ^ 53 <= (random mod 2 ^ 53) * N.of_nat (List.length templates)
          < (N.of_nat i + 1) * 2 ^ 53)%N)) /\
    (forall templates,
        layouts count = Some templates ->
        nth_error templates (random_index random (List.length templates))
        = Some layout) /\
    (forall templates i,
        layouts count = Some templates ->
        (N.of_nat i * 2 ^ 53 <= (random mod 2 ^ 53) * N.of_nat (List.length templates)
         < (N.of_nat i + 1) * 2 ^ 53)%N ->
        nth_error templates i = Some layout) /\
    (forall templates candidate,
        layouts count = Some templates -> In candidate templates ->
        exists random', choose_layout count random' = Some candidate) /\
    (layouts count = None -> layouts 1 = Some [layout] /\ layout = full_screen).
Proof.
  intros Hn count.
  assert (Hch : exists layout,
             choose_layout count random = Some layout /\
             (forall templates, layouts count = Some templates -> In layout templates) /\
             (layouts count = None -> layouts 1 = Some [layout] /\ layout = full_screen)).
  { unfold choose_layout, templates_for.
    destruct (layouts count) as [templates|] eqn:E.
    - destruct (choose_from templates random (layouts_nonempty _ _ E))
        as (layout & Hl & Hin).
      exists layout. split; [assumption|]. split; [|discriminate].
      intros t Ht. injection Ht as <-. assumption.
    - exists full_screen. split; [|split; [discriminate|intros _; split; reflexivity]].
      destruct (choose_from [full_screen] random) as (layout & Hl & [<-|[]]);
        [discriminate|exact Hl]. }
  destruct Hch as (layout & Hc & Hin & Hnone).
  assert (Hat : forall templates,
             layouts count = Some templates ->
             nth_error templates (random_index random (List.length templates))
             = Some layout).
  { intros templates Ht. unfold choose_layout, templates_for in Hc.
    rewrite Ht in Hc. exact Hc. }
  exists layout. split; [assumption|].
  split; [|split; [|split; [|split; [|split; [|split]]]]].
  - unfold fetchAndDisplayImages. fold count.
    destruct count as [|c] eqn:Ec; [lia|]. cbn [Nat.eqb].
    unfold choose_layout in Hc.
    destruct (templates_for (S c)) as [templates|]; [|discriminate]. rewrite Hc.
    destruct (place (Some layout) 0 imageUrls []) as [shown [err|]];
      [reflexivity|now rewrite app_nil_r].
  - exact Hin.
  - intros templates i _. apply random_index_iff.
  - exact Hat.
  - intros templates i Ht Hi. apply random_index_iff in Hi. rewrite <- Hi.
    exact (Hat templates Ht).
  - intros templates candidate. apply every_candidate_is_chosen.
  - exact Hnone.
Qed.

Lemma renderer_locates_a_layout_witness :
  let imageUrls := ["http://h/images/a.png"; "http://h/images/b.png"] in
  let count := List.length imageUrls in
  exists layout,
    choose_layout count 5000000000000000 = Some layout /\
    fetchAndDisplayImages (Parsed imageUrls) 5000000000000000 (view loaded)
    = (let (shown, thrown) := place (Some layout) 0 imageUrls [] in
       {| container := shown;
          console := console (view loaded) ++ match thrown with
                                              | Some err => [err]
                                              | None => []
                                              end |}) /\
    (forall templates,
        layouts count = Some templates -> In layout templates) /\
    (forall templates i,
        layouts count = Some templates ->
        (random_index 5000000000000000 (List.length templates) = i <->
         (N.of_nat i * 2 ^ 53
          <= (5000000000000000 mod 2 ^ 53) * N.of_nat (List.length templates)
          < (N.of_nat i + 1) * 2 ^ 53)%N)) /\
    (forall templates,
        layouts count = Some templates ->
        nth_error templates (random_index 5000000000000000 (List.length templates))
        = Some layout) /\
    (forall templates i,
        layouts count = Some templates ->
        (N.of_nat i * 2 ^ 53
         <= (5000000000000000 mod 2 ^ 53) * N.of_nat (List.length templates)
         < (N.of_nat i + 1) * 2 ^ 53)%N ->
        nth_error templates i = Some layout) /\
    (forall templates candidate,
        layouts count = Some templates -> In candidate templates ->
        exists random', choose_layout count random' = Some candidate) /\
    (layouts count = None -> layouts 1 = Some [layout] /\ layout = full_screen).
Proof.
  apply (renderer_locates_a_layout
           ["http://h/images/a.png"; "http://h/images/b.png"]
           5000000000000000 (view loaded)).
  simpl. lia.
Defined.

(** The two candidates for two images are both chosen: the first for a
    value of Math.random() below one half, the second from one half
    on. *)
Example both_layouts_for_two_are_chosen :
  choose_layout 2 (2 ^ 52 - 1)
  = Some [ R "0%" "0%" "50%" "100%"; R "50%" "0%" "50%" "100%" ] /\
  choose_layout 2 (2 ^ 52)
  = Some [ R "0%" "0%" "100%" "50%"; R "0%" "50%" "100%" "50%" ].
Proof. split; vm_compute; reflexivity. Qed.

(** C8, against the claim as written: a renderer that shows an image
    and whose fetch is rejected still shows that image afterwards, and no
    message; so the reading above does not hold. *)
Lemma failure_shows_no_message :
  let r := {| state := Fetching;
              view := {| container := [Image "http://h/images/a.png"
                                             (R "0%" "0%" "100%" "100%")];
                         console := [] |};
              interval := true |} in
  let r' := on_settled FetchRejected 0%N r in
  is_failure FetchRejected = true /\
  container (view r') = container (view r) /\
  existsb is_message (container (view r')) = false /\
  ~ failure_shows_a_message.
Proof.
  repeat split.
  intros H. specialize (H loaded FetchRejected 0%N eq_refl eq_refl eq_refl).
  destruct H as (_ & H & _). discriminate.
Qed.

(** C8, amended.  After a failed fetch or parse the renderer is idle,
    the container is as it was, the error is on the console, and the
    timer is still set, so that its next firing starts a fetch. *)
Theorem failure_keeps_display_and_timer
  (r : renderer) (outcome : fetched) (random : N) :
  state r = Fetching -> interval r = true -> is_failure outcome = true ->
  let r' := on_settled outcome random r in
  state r' = Idle /\
  container (view r') = container (view r) /\
  (exists err, console (view r') = console (view r) ++ [err]) /\
  interval r' = true /\
  state (on_timer r') = Fetching.
Proof.
  intros _ Hint Hfail r'. unfold r', on_settled, on_timer. cbn [interval state view].
  rewrite Hint.
  destruct outcome as [| |urls]; [| |discriminate];
    (repeat split; eexists; reflexivity).
Qed.

Lemma failure_keeps_display_and_timer_witness :
  let r' := on_settled JsonRejected 0%N loaded in
  state r' = Idle /\
  container (view r') = container (view loaded) /\
  (exists err, console (view r') = console (view loaded) ++ [err]) /\
  interval r' = true /\
  state (on_timer r') = Fetching.
Proof.
  apply (failure_keeps_display_and_timer loaded JsonRejected 0%N); reflexivity.
Defined.

End RendererFacts.

(** * Further properties of the code *)

(** ** The scanner *)

(** X1.  On a well-formed tree the scanner returns normally for every
    path string, existing or not: [relpath] never raises on the paths of
    the walk.  It does not touch the random draws, and it adds exactly one
    INFO record, which carries the number of paths returned. *)
Theorem scan_returns_and_logs_once (fs : filesystem) (d : string) (w : world) :
  wf_node (fs_root fs) = true ->
  exists images,
    list_image_files fs (Some d) w
    = (Ok images, logged w (INFO, FoundImages (List.length images) (Some d))).
Proof.
  intros Hwf. destruct (os_stat fs d) as [n|] eqn:E.
  - eexists. apply (list_image_files_found fs d n w); [|exact E].
    exact (os_stat_wf _ _ _ Hwf E).
  - exists []. now apply list_image_files_missing.
Qed.

Lemma scan_returns_and_logs_once_witness :
  exists images,
    list_image_files sample_fs (Some "no/such/dir") sample_world
    = (Ok images,
       logged sample_world (INFO, FoundImages (List.length images) (Some "no/such/dir"))).
Proof.
  apply (scan_returns_and_logs_once sample_fs "no/such/dir" sample_world).
  reflexivity.
Defined.

(** X2.  The scanned list depends on the directory reached, not on how
    its path is written nor on the state of the log and of the random
    source: two paths that resolve to the same place give the same
    list. *)
Theorem scan_ignores_spelling
  (fs : filesystem) (d1 d2 : string) (w1 w2 : world) :
  wf_node (fs_root fs) = true ->
  os_locate fs d1 = os_locate fs d2 ->
  fst (list_image_files fs (Some d1) w1) = fst (list_image_files fs (Some d2) w2).
Proof.
  intros Hwf Hloc.
  assert (Hstat : os_stat fs d1 = os_stat fs d2) by (unfold os_stat; now rewrite Hloc).
  destruct (os_stat fs d2) as [n|] eqn:E.
  - pose proof (os_stat_wf _ _ _ Hwf E) as Hn.
    rewrite (list_image_files_found fs d1 n w1 Hn Hstat).
    rewrite (list_image_files_found fs d2 n w2 Hn E). reflexivity.
  - rewrite (list_image_files_missing fs d1 w1 Hstat).
    rewrite (list_image_files_missing fs d2 w2 E). reflexivity.
Qed.

Lemma scan_ignores_spelling_witness :
  fst (list_image_files sample_fs (Some "./pics//trip/..") sample_world)
  = fst (list_image_files sample_fs (Some "/srv/pics/")
           (logged sample_world (ERROR, ImageDirNotSet))).
Proof.
  apply (scan_ignores_spelling sample_fs "./pics//trip/.." "/srv/pics/");
    reflexivity.
Defined.





Lemma join_longer_has_sep (name : string) (rel : list string) :
  rel <> [] -> Str.contains "/" (Str.join "/" (name :: rel)) = true.
Proof.
  intros Hne. destruct rel as [|a l]; [congruence|].
  change (Str.join "/" (name :: a :: l))
    with (name +++ String "/" (Str.join "/" (a :: l))).
  rewrite contains_app. simpl. now rewrite orb_true_r.
Qed.

(** X4.  The images of the root directory itself come first, in the
    order of the directory listing and under their bare names; the
    images of the subdirectories follow, each with a separator in its
    path. *)
Theorem scan_lists_top_level_first
  (fs : filesystem) (d : string) (es : list (string * node)) (w : world) :
  wf_node (fs_root fs) = true ->
  os_stat fs d = Some (Dir true es) ->
  exists below w',
    list_image_files fs (Some d) w
    = (Ok (filter is_image (filenames es) ++ below), w') /\
    Forall (fun p => Str.contains "/" p = false) (filter is_image (filenames es)) /\
    Forall (fun p => Str.contains "/" p = true) below.
Proof.
  intros Hwf Hstat. pose proof (os_stat_wf _ _ _ Hwf Hstat) as Hn.
  destruct (wf_dir _ _ Hn) as [Hnd Hes].
  pose proof (list_image_files_found fs d _ w Hn Hstat) as E.
  cbn [scan_names] in E. rewrite map_app, map_map in E.
  cbn [List.app Str.join] in E. rewrite map_id in E.
  eexists. eexists. split; [exact E|]. split.
  - apply Forall_forall. intros f Hf. apply filter_In in Hf. destruct Hf as [Hf _].
    apply in_filenames in Hf. destruct Hf as (c & _ & Hc).
    destruct (Hes _ _ Hc) as [Hv _].
    exact (proj1 (proj2 (valid_name_facts f Hv))).
  - apply Forall_forall. intros p Hp.
    apply in_map_iff in Hp. destruct Hp as (names & <- & Hin).
    apply in_flat_map in Hin. destruct Hin as ([name ch] & He & Hin).
    destruct (is_dir ch); [|contradiction].
    destruct (scan_names_sound ch (proj2 (Hes _ _ He)) _ _ Hin)
      as (rel & c & -> & Hne & _).
    cbn [List.app]. now apply join_longer_has_sep.
Qed.

Lemma scan_lists_top_level_first_witness :
  exists below w',
    list_image_files sample_fs (Some "pics") sample_world
    = (Ok (filter is_image (filenames
             [ ("a.PNG", File "A"); ("notes.txt", File "n");
               ("trip", Dir true [ ("b.jpg", File "B"); ("c.webp", File "C") ]);
               ("d.gif", File "D") ]) ++ below), w') /\
    Forall (fun p => Str.contains "/" p = false)
      (filter is_image (filenames
         [ ("a.PNG", File "A"); ("notes.txt", File "n");
           ("trip", Dir true [ ("b.jpg", File "B"); ("c.webp", File "C") ]);
           ("d.gif", File "D") ])) /\
    Forall (fun p => Str.contains "/" p = true) below.
Proof.
  apply (scan_lists_top_level_first sample_fs "pics" _ sample_world); reflexivity.
Defined.

(** X5.  When the configured root names a regular file instead of a
    directory, the application serves nothing and raises nothing: the
    list endpoint answers with the empty array and the image endpoint
    (with Flask's primitive as modelled) answers 404 to every request. *)
Theorem file_as_root_serves_nothing
  (fs : filesystem) (app : application) (d c : string) (w : world) (fuel : nat) :
  IMAGE_DIR app = Some d ->
  os_stat fs d = Some (File c) ->
  fst (dispatch (random_images fuel fs app) w) = Reply 200 (JsonArray []) /\
  forall filename,
    dispatch (get_image fs app filename) w = (ErrorPage 404, w).
Proof.
  intros Hdir Hstat. split.
  - unfold dispatch, random_images, list_image_files, os_walk, bind, ret.
    rewrite Hdir, Hstat. reflexivity.
  - intros filename.
    unfold dispatch, get_image, send_from_directory, isfile, send_file.
    rewrite Hdir.
    destruct (safe_join d filename) as [path_str|] eqn:Hsafe; [|reflexivity].
    destruct (os_stat fs path_str) as [[content|r es|]|] eqn:Hp; try reflexivity.
    exfalso.
    destruct (served_inside fs d filename path_str content Hsafe Hp)
      as (locD & names & Hloc & Hne & _ & Hl).
    assert (Hd : root_or_curdir d = d).
    { pose proof (os_stat_nonempty _ _ _ Hstat). destruct d; [congruence|reflexivity]. }
    rewrite Hd in Hloc.
    unfold os_stat in Hstat. rewrite Hloc in Hstat.
    rewrite tree_lookup_app, Hstat in Hl.
    destruct names; [congruence|discriminate].
Qed.

Lemma file_as_root_serves_nothing_witness :
  fst (dispatch (random_images 0 sample_fs
                   {| IMAGE_DIR := Some "/srv/pics/a.PNG";
                      url_for := url_for sample_app |}) sample_world)
  = Reply 200 (JsonArray []) /\
  forall filename,
    dispatch (get_image sample_fs
                {| IMAGE_DIR := Some "/srv/pics/a.PNG";
                   url_for := url_for sample_app |} filename) sample_world
    = (ErrorPage 404, sample_world).
Proof.
  apply (file_as_root_serves_nothing sample_fs
           {| IMAGE_DIR := Some "/srv/pics/a.PNG"; url_for := url_for sample_app |}
           "/srv/pics/a.PNG" "A" sample_world 0); reflexivity.
Defined.

(** ** The list endpoint *)

Lemma keeps_drawing_fewer (n k k' : nat) (w : world) :
  k' <= k -> keeps_drawing n k w -> keeps_drawing n k' w.
Proof.
  intros Hk H i sel Hsel. apply H. lia.
Qed.

(** The answer of the list endpoint for a configured root, whatever the
    root holds. *)
Lemma random_images_answer
  (fuel : nat) (fs : filesystem) (app : application) (d : string) (w : world) :
  wf_node (fs_root fs) = true ->
  IMAGE_DIR app = Some d ->
  exists images w1,
    list_image_files fs (Some d) w = (Ok images, w1) /\
    draws w1 = draws w /\
    ((exists w',
         dispatch (random_images fuel fs app) w = (NoAnswer, w') /\
         21 < List.length images) \/
     (exists selected w',
         dispatch (random_images fuel fs app) w
         = (Reply 200 (JsonArray (map (url_for app) selected)), w') /\
         incl selected images /\
         List.length selected <= 5 /\
         List.length selected <= List.length images /\
         (images <> [] -> 1 <= List.length selected))).
Proof.
  intros Hwf Hdir.
  destruct (os_stat fs d) as [n|] eqn:Hstat.
  - pose proof (os_stat_wf _ _ _ Hwf Hstat) as Hn.
    pose proof (list_image_files_found fs d n w Hn Hstat) as Hscan.
    cbv zeta in Hscan.
    set (images := map (Str.join "/") (scan_names n [])) in *.
    set (w1 := logged w (INFO, FoundImages (List.length images) (Some d))) in *.
    exists images, w1. split; [exact Hscan|]. split; [reflexivity|].
    destruct images as [|a l] eqn:Ei.
    + right. exists [], (logged w1 (ERROR, NoImagesFound (Some d))). split.
      * unfold dispatch, random_images, bind. rewrite Hdir, Hscan. reflexivity.
      * repeat split; simpl; try lia; [apply incl_refl|congruence].
    + rewrite <- Ei in *.
      assert (Hne : images <> []) by (rewrite Ei; discriminate).
      rewrite <- Hdir in Hscan.
      destruct (random_images_selects fuel fs app w w1 images Hscan Hne)
        as [(w2 & E & _ & Hbig & _)
           |(selected & positions & w2 & E & _ & Hlen & Hp & Hmap & _)].
      * left. exists w2. unfold dispatch. rewrite E. split; [reflexivity|exact Hbig].
      * right. exists selected, w2. split.
        -- unfold dispatch. rewrite E. reflexivity.
        -- assert (Hmod : draws w1 0 mod 5 < 5) by (apply Nat.mod_upper_bound; lia).
           assert (Hk : 1 <= List.length images)
             by (rewrite Ei; simpl; lia).
           repeat split; try lia.
           exact (positions_incl _ _ _ Hmap).
  - pose proof (list_image_files_missing fs d w Hstat) as Hscan.
    set (w1 := logged w (INFO, FoundImages 0 (Some d))) in *.
    exists [], w1. split; [exact Hscan|]. split; [reflexivity|].
    right. exists [], (logged w1 (ERROR, NoImagesFound (Some d))). split.
    + unfold dispatch, random_images, bind. rewrite Hdir, Hscan. reflexivity.
    + repeat split; simpl; try lia; [apply incl_refl|congruence].
Qed.

(** X6.  With the root configured as a string, the list endpoint never
    answers with an error page, whatever the path names and whatever the
    random draws.  However long the request is followed, it has not been
    answered, which takes more than 21 images, or the answer is a 200
    JSON array of at most five URLs and at most as many as there are
    images, at least one when there is an image, each the URL of a
    scanned path.  It is answered when there are at most 21 images or
    the draws keep leaving every set of fewer than five positions. *)
Theorem list_endpoint_never_fails
  (fs : filesystem) (app : application) (d : string) (w : world) :
  wf_node (fs_root fs) = true ->
  IMAGE_DIR app = Some d ->
  exists images w1,
    list_image_files fs (Some d) w = (Ok images, w1) /\
    (forall fuel status,
        fst (dispatch (random_images fuel fs app) w) <> ErrorPage status) /\
    (forall fuel,
        (exists w',
            dispatch (random_images fuel fs app) w = (NoAnswer, w') /\
            21 < List.length images) \/
        (exists selected w',
            dispatch (random_images fuel fs app) w
            = (Reply 200 (JsonArray (map (url_for app) selected)), w') /\
            incl selected images /\
            List.length selected <= 5 /\
            List.length selected <= List.length images /\
            (images <> [] -> 1 <= List.length selected))) /\
    (List.length images <= 21 \/ keeps_drawing (List.length images) 5 w ->
     exists fuel selected w',
       forall fuel',
         fuel <= fuel' ->
         dispatch (random_images fuel' fs app) w
         = (Reply 200 (JsonArray (map (url_for app) selected)), w')).
Proof.
  intros Hwf Hdir.
  destruct (random_images_answer 0 fs app d w Hwf Hdir)
    as (images & w1 & Hscan & Hdraws & _).
  assert (Hany : forall fuel,
             (exists w',
                 dispatch (random_images fuel fs app) w = (NoAnswer, w') /\
                 21 < List.length images) \/
             (exists selected w',
                 dispatch (random_images fuel fs app) w
                 = (Reply 200 (JsonArray (map (url_for app) selected)), w') /\
                 incl selected images /\
                 List.length selected <= 5 /\
                 List.length selected <= List.length images /\
                 (images <> [] -> 1 <= List.length selected))).
  { intros fuel.
    destruct (random_images_answer fuel fs app d w Hwf Hdir)
      as (images' & w1' & Hscan' & _ & Hans).
    rewrite Hscan in Hscan'. injection Hscan' as <- <-. exact Hans. }
  exists images, w1. split; [exact Hscan|]. split; [|split; [exact Hany|]].
  - intros fuel status E.
    destruct (Hany fuel) as [(w' & Hans & _)|(selected & w' & Hans & _)];
      rewrite Hans in E; discriminate.
  - intros Hwhy. destruct images as [|a l] eqn:Ei.
    + exists 0, [], (logged w1 (ERROR, NoImagesFound (Some d))).
      intros fuel' _. unfold dispatch, random_images, bind.
      rewrite Hdir, Hscan. reflexivity.
    + rewrite <- Ei in *.
      assert (Hne : images <> []) by (rewrite Ei; discriminate).
      rewrite <- Hdir in Hscan.
      assert (Hmod : draws w1 0 mod 5 < 5) by (apply Nat.mod_upper_bound; lia).
      destruct (random_images_returns fs app w w1 images Hscan Hne)
        as (fuel & selected & w' & Hrun).
      { destruct Hwhy as [H|H]; [right; left; exact H|right; right].
        apply (keeps_drawing_fewer _ 5); [lia|].
        apply (keeps_drawing_later _ _ 0 w); [|exact H].
        intros i. now rewrite Hdraws. }
      exists fuel, selected, w'. intros fuel' Hf. unfold dispatch.
      now rewrite (Hrun fuel' Hf).
Qed.

Lemma list_endpoint_never_fails_witness :
  exists images w1,
    list_image_files sample_fs (Some "/srv/pics") sample_world = (Ok images, w1) /\
    (forall fuel status,
        fst (dispatch (random_images fuel sample_fs sample_app) sample_world)
        <> ErrorPage status) /\
    (forall fuel,
        (exists w',
            dispatch (random_images fuel sample_fs sample_app) sample_world
            = (NoAnswer, w') /\
            21 < List.length images) \/
        (exists selected w',
            dispatch (random_images fuel sample_fs sample_app) sample_world
            = (Reply 200 (JsonArray (map (url_for sample_app) selected)), w') /\
            incl selected images /\
            List.length selected <= 5 /\
            List.length selected <= List.length images /\
            (images <> [] -> 1 <= List.length selected))) /\
    (List.length images <= 21 \/ keeps_drawing (List.length images) 5 sample_world ->
     exists fuel selected w',
       forall fuel',
         fuel <= fuel' ->
         dispatch (random_images fuel' sample_fs sample_app) sample_world
         = (Reply 200 (JsonArray (map (url_for sample_app) selected)), w')).
Proof.
  apply (list_endpoint_never_fails sample_fs sample_app "/srv/pics" sample_world);
    reflexivity.
Defined.

(** X7.  When the number drawn is at least the number of images found,
    every image is in the answer, exactly once: in the order of the scan
    when the number drawn is larger, in the order of the sample when the
    two are equal. *)
Theorem few_images_are_all_selected
  (fs : filesystem) (app : application) (w w1 : world) (images : list string)
  (fuel : nat) :
  wf_node (fs_root fs) = true ->
  list_image_files fs (IMAGE_DIR app) w = (Ok images, w1) ->
  images <> [] ->
  List.length images <= 1 + draws w1 0 mod 5 ->
  exists selected w2,
    random_images fuel fs app w = (Ok (jsonify (map (url_for app) selected)), w2) /\
    NoDup selected /\
    List.length selected = List.length images /\
    (forall p, In p selected <-> In p images) /\
    (List.length images < 1 + draws w1 0 mod 5 -> selected = images).
Proof.
  intros Hwf Hscan Hne Hfew.
  assert (Hmod : draws w1 0 mod 5 < 5) by (apply Nat.mod_upper_bound; lia).
  destruct (random_images_selects fuel fs app w w1 images Hscan Hne)
    as [(w2 & _ & _ & Hbig & _)
       |(selected & positions & w2 & E & _ & Hlen & Hp & Hmap & Hall & _)];
    [lia|].
  pose proof (scan_result_NoDup fs _ w w1 images Hwf Hscan) as Hnd.
  pose proof (positions_NoDup _ _ _ Hp Hmap Hnd) as Hsel.
  pose proof (positions_incl _ _ _ Hmap) as Hincl.
  assert (Hlen' : List.length selected = List.length images) by lia.
  exists selected, w2. repeat split; try assumption.
  - apply Hincl.
  - apply (NoDup_length_incl Hsel); [lia|assumption].
Qed.

Lemma few_images_are_all_selected_witness :
  let images := ["a.PNG"; "d.gif"; "trip/b.jpg"; "trip/c.webp"] in
  let w1 := logged sample_world (INFO, FoundImages 4 (Some "/srv/pics")) in
  exists selected w2,
    random_images 0 sample_fs sample_app sample_world
    = (Ok (jsonify (map (url_for sample_app) selected)), w2) /\
    NoDup selected /\
    List.length selected = List.length images /\
    (forall p, In p selected <-> In p images) /\
    (List.length images < 1 + draws w1 0 mod 5 -> selected = images).
Proof.
  apply (few_images_are_all_selected sample_fs sample_app sample_world);
    [reflexivity|reflexivity|discriminate|vm_compute; lia].
Defined.

Lemma join_ends_with_last (names : list string) :
  names <> [] -> exists front, Str.join "/" names = front +++ last names "".
Proof.
  intros Hne. destruct (exists_last Hne) as (init & f & ->).
  rewrite last_last. destruct init as [|a l].
  - exists "". reflexivity.
  - rewrite join_snoc by discriminate.
    exists (Str.join "/" (a :: l) +++ "/"). now rewrite append_assoc.
Qed.

(** The suffix test holds of a path when it holds of its last name. *)
Lemma is_image_path (names : list string) :
  names <> [] -> is_image (last names "") = true ->
  is_image (Str.join "/" names) = true.
Proof.
  intros Hne Hi. destruct (join_ends_with_last names Hne) as [front ->].
  unfold is_image, Str.endswith_any in *.
  apply existsb_exists in Hi. destruct Hi as (suf & Hin & Hs).
  apply existsb_exists. exists suf. split; [assumption|].
  apply endswith_iff in Hs. destruct Hs as [pre Hpre].
  apply endswith_iff. exists (Str.lower front +++ pre).
  now rewrite lower_app, Hpre, append_assoc.
Qed.

(** A scanned path passes the suffix test and names an entry that is not
    a directory; the request for it is answered with the entry's bytes
    when it is a regular file and with the 404 page when it is not (the
    core of the round trip). *)
Lemma scanned_path_is_answered
  (fs : filesystem) (app : application) (d : string) (n : node) (w w1 : world)
  (images : list string) (p : string) :
  wf_node (fs_root fs) = true ->
  IMAGE_DIR app = Some d ->
  os_stat fs d = Some n ->
  list_image_files fs (Some d) w = (Ok images, w1) ->
  In p images ->
  is_image p = true /\
  exists names m,
    tree_lookup n names = Some m /\ is_dir m = false /\
    os_stat fs (PosixPath.join d p) = Some m /\
    forall w2,
      dispatch (get_image fs app p) w2
      = (match m with
         | File content => Reply 200 (FileBytes content)
         | _ => ErrorPage 404
         end, w2).
Proof.
  intros Hwf Hdir Hstat Hscan Hin.
  pose proof (os_stat_wf _ _ _ Hwf Hstat) as Hwfn.
  rewrite (list_image_files_found fs d n w Hwfn Hstat) in Hscan.
  injection Hscan as <- _.
  apply in_map_iff in Hin. destruct Hin as (names0 & <- & Hin).
  destruct (scan_names_sound n Hwfn _ _ Hin)
    as (names & m & -> & Hne & Hl & Hm & Hi).
  cbn [List.app].
  pose proof (tree_lookup_valid _ _ _ Hwfn Hl) as Hv.
  assert (Hp : Forall plain names)
    by (eapply Forall_impl; [|exact Hv]; apply valid_plain).
  destruct (os_stat_lookup _ _ _ Hstat) as (locD & HlocD & HnD).
  pose proof (os_stat_below fs d locD names n m HlocD HnD Hne Hv Hl) as Hfile.
  split; [now apply is_image_path|].
  exists names, m. split; [exact Hl|]. split; [exact Hm|]. split; [exact Hfile|].
  intros w2.
  unfold dispatch, get_image, send_from_directory, isfile, send_file.
  rewrite Hdir, safe_join_names, Hfile; try assumption.
  - destruct m; reflexivity.
  - exact (os_stat_nonempty _ _ _ Hstat).
Qed.

(** X8.  Every URL of an answer of the list endpoint is the URL of a
    path that passes the extension test and names, below the root, an
    entry that is not a directory; the image endpoint (with Flask's
    primitive as modelled) answers the request for it, over the same
    directory tree, with status 200 and the entry's bytes when the entry
    is a regular file, and with the 404 page when it is not.  So the two
    endpoints agree when everything below the root is a regular file or
    a directory. *)
Theorem every_listed_url_is_answered
  (fs : filesystem) (app : application) (d : string) (w w' : world)
  (urls : list string) (fuel : nat) :
  wf_node (fs_root fs) = true ->
  IMAGE_DIR app = Some d ->
  dispatch (random_images fuel fs app) w = (Reply 200 (JsonArray urls), w') ->
  Forall (fun u =>
            exists p m,
              u = url_for app p /\ is_image p = true /\
              os_stat fs (PosixPath.join d p) = Some m /\ is_dir m = false /\
              forall w2,
                dispatch (get_image fs app p) w2
                = (match m with
                   | File content => Reply 200 (FileBytes content)
                   | _ => ErrorPage 404
                   end, w2)) urls /\
  (forall n,
      os_stat fs d = Some n -> all_regular n = true ->
      Forall (fun u =>
                exists p content,
                  u = url_for app p /\ is_image p = true /\
                  forall w2,
                    dispatch (get_image fs app p) w2
                    = (Reply 200 (FileBytes content), w2)) urls).
Proof.
  intros Hwf Hdir Hans.
  destruct (random_images_answer fuel fs app d w Hwf Hdir)
    as (images & w1 & Hscan & _ & [(w'' & E & _)|(selected & w'' & E & Hincl & _)]);
    rewrite E in Hans; [discriminate|].
  injection Hans as <- _.
  destruct (os_stat fs d) as [n|] eqn:Hstat.
  2:{ rewrite (list_image_files_missing fs d w Hstat) in Hscan.
      injection Hscan as <- _.
      destruct selected as [|x l]; [|destruct (Hincl x); now left].
      split; [constructor|]. intros n Hn. discriminate. }
  split.
  - apply Forall_forall. intros u Hu.
    apply in_map_iff in Hu. destruct Hu as (p & <- & Hp).
    destruct (scanned_path_is_answered fs app d n w w1 images p Hwf Hdir Hstat
                Hscan (Hincl _ Hp))
      as (Hi & names & m & _ & Hm & Hfile & Hserved).
    exists p, m. split; [reflexivity|]. split; [exact Hi|].
    split; [exact Hfile|]. split; [exact Hm|exact Hserved].
  - intros n' Hn' Hreg. injection Hn' as <-.
    apply Forall_forall. intros u Hu.
    apply in_map_iff in Hu. destruct Hu as (p & <- & Hp).
    destruct (scanned_path_is_answered fs app d n w w1 images p Hwf Hdir Hstat
                Hscan (Hincl _ Hp))
      as (Hi & names & m & Hl & Hm & _ & Hserved).
    destruct (regular_lookup names n m Hreg Hl Hm) as [content ->].
    exists p, content. split; [reflexivity|]. split; [exact Hi|exact Hserved].
Qed.

Lemma every_listed_url_is_answered_witness :
  Forall (fun u =>
            exists p m,
              u = url_for fifo_app p /\ is_image p = true /\
              os_stat fifo_fs (PosixPath.join "pics" p) = Some m /\
              is_dir m = false /\
              forall w2,
                dispatch (get_image fifo_fs fifo_app p) w2
                = (match m with
                   | File content => Reply 200 (FileBytes content)
                   | _ => ErrorPage 404
                   end, w2))
    ["http://localhost:5000/images/a.png";
     "http://localhost:5000/images/pipe.png"] /\
  (forall n,
      os_stat fifo_fs "pics" = Some n -> all_regular n = true ->
      Forall (fun u =>
                exists p content,
                  u = url_for fifo_app p /\ is_image p = true /\
                  forall w2,
                    dispatch (get_image fifo_fs fifo_app p) w2
                    = (Reply 200 (FileBytes content), w2))
        ["http://localhost:5000/images/a.png";
         "http://localhost:5000/images/pipe.png"]).
Proof.
  apply (every_listed_url_is_answered fifo_fs fifo_app "pics"
           {| draws := fun _ => 4; log := [] |}
           {| draws := fun _ => 4;
              log := [(INFO, FoundImages 2 (Some "pics"))] |} _ 0);
    reflexivity.
Defined.

(** ** The image endpoint *)

Lemma plain_valid (c : string) : plain c -> valid_name c = true.
Proof.
  intros ((H1 & H2) & H3 & H4). unfold valid_name.
  apply String.eqb_neq in H3, H4. rewrite H2, H3, H4.
  destruct c; [congruence|reflexivity].
Qed.

(** What [safe_join] returns when it returns a path. *)
Lemma safe_join_result (d f p : string) :
  safe_join d f = Some p ->
  (f = "" /\ p = PosixPath.join (root_or_curdir d) "") \/
  (f <> "" /\ escapes_root f = false /\ Forall plain (PosixPath.norm_comps f) /\
   p = PosixPath.join (root_or_curdir d)
         (match PosixPath.norm_comps f with
          | [] => "."
          | comps => Str.join "/" comps
          end)).
Proof.
  intros H. destruct f as [|c r].
  - left. split; [reflexivity|]. cbn in H. now injection H as <-.
  - right. split; [discriminate|].
    destruct (escapes_root (String c r)) eqn:Hesc.
    { rewrite (safe_join_escape d _ Hesc) in H. discriminate. }
    split; [reflexivity|].
    unfold escapes_root in Hesc. apply orb_false_iff in Hesc.
    destruct Hesc as [Habs Hclimb].
    destruct (norm_fold_rel (Str.split "/" (String c r))
                (split_parts_no_sep "/" _) 0 [])
      as (k & names & E & Hn & Hk); [constructor|].
    assert (Hk0 : k = 0) by (apply Hk; split; [reflexivity|exact Hclimb]).
    subst k. cbn [repeat List.app] in E.
    assert (Hcomps : PosixPath.norm_comps (String c r) = names).
    { unfold PosixPath.norm_comps, PosixPath.sep. now rewrite Habs. }
    rewrite Hcomps. split; [exact Hn|].
    assert (Hnorm : PosixPath.normpath (String c r)
                    = match names with [] => "." | comps => Str.join "/" comps end).
    { unfold PosixPath.normpath, PosixPath.initial_slashes.
      rewrite Habs, Hcomps. cbn [Str.nonempty negb String.append].
      unfold PosixPath.sep.
      destruct names as [|a l]; [reflexivity|].
      inversion Hn as [|? ? ((Ha & _) & _) _]; subst.
      destruct a; [congruence|]. destruct l; reflexivity. }
    unfold safe_join in H. fold (root_or_curdir d) in H.
    cbn [Str.nonempty] in H. rewrite Hnorm in H.
    match type of H with
    | (if ?c then _ else _) = _ => destruct c; [discriminate|]
    end.
    injection H as <-. destruct names; reflexivity.
Qed.

(** How the resolution of a joined path splits. *)
Lemma os_stat_join_parts (fs : filesystem) (a b : string) (m : node) :
  a <> "" -> Str.startswith "/" b = false ->
  os_stat fs (PosixPath.join a b) = Some m ->
  exists locA loc,
    walk_path (fs_root fs) (if PosixPath.isabs a then [] else fs_cwd fs)
              (path_comps a) = Some locA /\
    walk_path (fs_root fs) locA (path_comps b) = Some loc /\
    tree_lookup (fs_root fs) loc = Some m /\
    (Str.endswith "/" (PosixPath.join a b) = true -> is_dir m = true).
Proof.
  intros Ha Hb Hstat. unfold os_stat in Hstat.
  destruct (os_locate fs (PosixPath.join a b)) as [loc|] eqn:Hloc; [|discriminate].
  unfold os_locate in Hloc.
  destruct (Str.nonempty (PosixPath.join a b)); [|discriminate]. cbn [negb] in Hloc.
  rewrite isabs_join_rel, path_comps_join, walk_path_app in Hloc by assumption.
  destruct (walk_path (fs_root fs) (if PosixPath.isabs a then [] else fs_cwd fs)
              (path_comps a)) as [locA|]; [|discriminate].
  destruct (walk_path (fs_root fs) locA (path_comps b)) as [loc'|] eqn:Hwalk;
    [|discriminate].
  destruct (tree_lookup (fs_root fs) loc') as [n'|] eqn:Hn'; [|discriminate].
  destruct (Str.endswith "/" (PosixPath.join a b)) eqn:Hend.
  - destruct (is_dir n') eqn:Hd; [|discriminate]. cbn in Hloc.
    injection Hloc as <-. rewrite Hn' in Hstat. injection Hstat as <-.
    exists locA, loc'. repeat split; auto.
  - cbn in Hloc. injection Hloc as <-. rewrite Hn' in Hstat. injection Hstat as <-.
    exists locA, loc'. repeat split; auto; discriminate.
Qed.

(** The requests that get a file, and the file they get. *)
Lemma get_image_serves_iff
  (fs : filesystem) (app : application) (d filename content : string) (w : world) :
  IMAGE_DIR app = Some d ->
  dispatch (get_image fs app filename) w = (Reply 200 (FileBytes content), w) <->
  filename <> "" /\ escapes_root filename = false /\
  PosixPath.norm_comps filename <> [] /\
  exists locD,
    os_locate fs (root_or_curdir d) = Some locD /\
    tree_lookup (fs_root fs) (locD ++ PosixPath.norm_comps filename)
    = Some (File content).
Proof.
  intros Hdir. pose proof (root_or_curdir_nonempty d) as Hd.
  unfold dispatch, get_image, send_from_directory, isfile, send_file.
  rewrite Hdir. split.
  - intros H.
    destruct (safe_join d filename) as [p|] eqn:Hsafe; [|discriminate].
    destruct (os_stat fs p) as [[c|r es|]|] eqn:Hstat; try discriminate.
    cbn in H. injection H as ->.
    destruct (safe_join_result _ _ _ Hsafe) as [[-> ->]|(Hne & Hesc & Hplain & ->)].
    + destruct (os_stat_join_parts fs _ "" _ Hd eq_refl Hstat) as (_ & _ & _ & _ & _ & Hdir').
      specialize (Hdir' (endswith_join_empty _ Hd)). discriminate.
    + split; [assumption|]. split; [assumption|].
      destruct (PosixPath.norm_comps filename) as [|a l] eqn:Hcomps.
      * destruct (os_stat_join_parts fs _ "." _ Hd eq_refl Hstat)
          as (locA & loc & _ & Hwalk & Hl & _).
        cbn in Hwalk.
        destruct (tree_lookup (fs_root fs) locA) as [[?|r es|]|] eqn:E;
          try discriminate.
        injection Hwalk as <-. rewrite E in Hl. discriminate.
      * split; [discriminate|].
        pose proof (join_names_relative _ Hplain) as Hrel.
        destruct (os_stat_join_parts fs _ _ _ Hd Hrel Hstat)
          as (locA & loc & HlocA & Hwalk & Hl & _).
        unfold path_comps, PosixPath.sep in Hwalk.
        rewrite split_join_good in Hwalk by now apply plain_good.
        pose proof (walk_path_plain _ _ Hplain _ _ Hwalk) as ->.
        exists locA. split; [|exact Hl].
        unfold os_locate.
        destruct (root_or_curdir d) as [|x y]; [congruence|].
        cbn [Str.nonempty negb]. rewrite HlocA. cbn [walk_path] in Hwalk.
        destruct (tree_lookup (fs_root fs) locA) as [[?|r0 es|]|]; try discriminate.
        cbn [is_dir negb]. now rewrite andb_false_r.
  - intros (Hne & Hesc & Hcomps & locD & Hloc & Hl).
    rewrite tree_lookup_app in Hl.
    destruct (tree_lookup (fs_root fs) locD) as [n|] eqn:HnD; [|discriminate].
    assert (Hplain : Forall plain (PosixPath.norm_comps filename)).
    { destruct (safe_join d filename) as [p|] eqn:Hsafe.
      - destruct (safe_join_result _ _ _ Hsafe) as [[-> _]|(_ & _ & H & _)];
          [congruence|exact H].
      - unfold escapes_root in Hesc. apply orb_false_iff in Hesc.
        destruct Hesc as [Habs Hclimb].
        destruct (norm_fold_rel (Str.split "/" filename)
                    (split_parts_no_sep "/" _) 0 [])
          as (k & names & E & Hn & Hk); [constructor|].
        assert (Hk0 : k = 0) by (apply Hk; split; [reflexivity|exact Hclimb]).
        subst k. cbn [repeat List.app] in E.
        unfold PosixPath.norm_comps, PosixPath.sep. now rewrite Habs, E. }
    assert (Hv : Forall (fun x => valid_name x = true) (PosixPath.norm_comps filename))
      by (eapply Forall_impl; [|exact Hplain]; apply plain_valid).
    pose proof (os_stat_below fs _ locD _ n (File content) Hloc HnD Hcomps Hv Hl)
      as Hfile.
    assert (Hsafe : safe_join d filename
                    = Some (PosixPath.join (root_or_curdir d)
                              (Str.join "/" (PosixPath.norm_comps filename)))).
    { pose proof (safe_join_names (root_or_curdir d) _ Hd Hcomps Hplain) as Hs.
      assert (Hnorm : PosixPath.normpath filename
                      = PosixPath.normpath (Str.join "/" (PosixPath.norm_comps filename))).
      { destruct (safe_join (root_or_curdir d)
                    (Str.join "/" (PosixPath.norm_comps filename))) eqn:E;
          [|discriminate].
        clear E Hs.
        unfold escapes_root in Hesc. apply orb_false_iff in Hesc.
        destruct Hesc as [Habs _].
        set (names := PosixPath.norm_comps filename) in *.
        pose proof (join_names_relative names Hplain) as Hrel.
        assert (Hsplit : Str.split "/" (Str.join "/" names) = names).
        { apply split_join; [assumption|].
          eapply Forall_impl; [|exact Hplain]. intros c ((_ & H) & _). exact H. }
        unfold PosixPath.normpath, PosixPath.initial_slashes.
        fold names. unfold PosixPath.isabs in *. rewrite Habs, Hrel.
        replace (PosixPath.norm_comps (Str.join "/" names)) with names.
        2:{ unfold PosixPath.norm_comps, PosixPath.isabs, PosixPath.sep.
            now rewrite Hrel, Hsplit, norm_fold_plain. }
        destruct filename as [|x y]; [congruence|].
        destruct names as [|a l]; [congruence|].
        inversion Hplain as [|? ? ((Ha & _) & _) _]; subst.
        assert (Hj : Str.nonempty (Str.join "/" (a :: l)) = true)
          by (destruct a; [congruence|destruct l; reflexivity]).
        cbn [Str.nonempty negb String.append]. unfold PosixPath.sep. now rewrite Hj. }
      unfold safe_join in *. fold (root_or_curdir d).
      assert (Hrr : root_or_curdir (root_or_curdir d) = root_or_curdir d)
        by (destruct d; reflexivity).
      fold (root_or_curdir (root_or_curdir d)) in Hs. rewrite Hrr in Hs.
      destruct filename as [|x y]; [congruence|]. cbn [Str.nonempty].
      rewrite Hnorm.
      destruct (Str.nonempty (Str.join "/" (PosixPath.norm_comps (String x y)))) eqn:Hj.
      - exact Hs.
      - destruct (PosixPath.norm_comps (String x y)) as [|a l]; [congruence|].
        inversion Hplain as [|? ? ((Ha & _) & _) _]; subst.
        destruct a; [congruence|]. destruct l; discriminate. }
    rewrite Hsafe, Hfile. reflexivity.
Qed.

(** X9.  With Flask's primitive as modelled, the image endpoint answers
    a request with a file's bytes exactly when the request path is not
    empty, does not escape the root, and its normal form (no empty or
    "." component, ".." resolved against the name before it) names a
    file below the root; every other request gets the 404 page.  The
    answer therefore depends on the normal form only. *)
Theorem image_endpoint_serves_exactly
  (fs : filesystem) (app : application) (d filename : string) (w : world) :
  IMAGE_DIR app = Some d ->
  (forall content,
      dispatch (get_image fs app filename) w = (Reply 200 (FileBytes content), w) <->
      filename <> "" /\ escapes_root filename = false /\
      PosixPath.norm_comps filename <> [] /\
      exists locD,
        os_locate fs (root_or_curdir d) = Some locD /\
        tree_lookup (fs_root fs) (locD ++ PosixPath.norm_comps filename)
        = Some (File content)) /\
  ((forall content,
       dispatch (get_image fs app filename) w <> (Reply 200 (FileBytes content), w)) ->
   dispatch (get_image fs app filename) w = (ErrorPage 404, w)).
Proof.
  intros Hdir. split.
  - intros content. now apply get_image_serves_iff.
  - intros Hno. unfold dispatch, get_image, send_from_directory, isfile, send_file in *.
    rewrite Hdir in *.
    destruct (safe_join d filename) as [p|]; [|reflexivity].
    destruct (os_stat fs p) as [[c|r es|]|]; try reflexivity.
    exfalso. exact (Hno c eq_refl).
Qed.

Lemma image_endpoint_serves_exactly_witness :
  (forall content,
      dispatch (get_image sample_fs sample_app "trip/.//../a.PNG/") sample_world
      = (Reply 200 (FileBytes content), sample_world) <->
      "trip/.//../a.PNG/" <> "" /\ escapes_root "trip/.//../a.PNG/" = false /\
      PosixPath.norm_comps "trip/.//../a.PNG/" <> [] /\
      exists locD,
        os_locate sample_fs (root_or_curdir "/srv/pics") = Some locD /\
        tree_lookup (fs_root sample_fs) (locD ++ PosixPath.norm_comps "trip/.//../a.PNG/")
        = Some (File content)) /\
  ((forall content,
       dispatch (get_image sample_fs sample_app "trip/.//../a.PNG/") sample_world
       <> (Reply 200 (FileBytes content), sample_world)) ->
   dispatch (get_image sample_fs sample_app "trip/.//../a.PNG/") sample_world
   = (ErrorPage 404, sample_world)).
Proof.
  apply (image_endpoint_serves_exactly sample_fs sample_app "/srv/pics"
           "trip/.//../a.PNG/" sample_world).
  reflexivity.
Defined.

(** X10.  The image endpoint does not look at the extension: with
    Flask's primitive as modelled, every file below the root, image or
    not, is served under the path made of the names that lead to it. *)
Theorem image_endpoint_serves_any_file
  (fs : filesystem) (app : application) (d : string) (n : node)
  (names : list string) (content : string) (w : world) :
  wf_node (fs_root fs) = true ->
  IMAGE_DIR app = Some d ->
  os_stat fs d = Some n ->
  tree_lookup n names = Some (File content) ->
  names <> [] ->
  dispatch (get_image fs app (Str.join "/" names)) w
  = (Reply 200 (FileBytes content), w).
Proof.
  intros Hwf Hdir Hstat Hl Hne.
  pose proof (os_stat_wf _ _ _ Hwf Hstat) as Hwfn.
  pose proof (tree_lookup_valid _ _ _ Hwfn Hl) as Hv.
  assert (Hp : Forall plain names)
    by (eapply Forall_impl; [|exact Hv]; apply valid_plain).
  destruct (os_stat_lookup _ _ _ Hstat) as (locD & HlocD & HnD).
  pose proof (os_stat_below fs d locD names n (File content) HlocD HnD Hne Hv Hl)
    as Hfile.
  unfold dispatch, get_image, send_from_directory, isfile, send_file.
  rewrite Hdir, safe_join_names, Hfile; try assumption; [reflexivity|].
  exact (os_stat_nonempty _ _ _ Hstat).
Qed.

Lemma image_endpoint_serves_any_file_witness :
  dispatch (get_image sample_fs sample_app (Str.join "/" ["notes.txt"])) sample_world
  = (Reply 200 (FileBytes "n"), sample_world).
Proof.
  apply (image_endpoint_serves_any_file sample_fs sample_app "/srv/pics" sample_pics
           ["notes.txt"] "n" sample_world);
    [reflexivity|reflexivity|reflexivity|reflexivity|discriminate].
Defined.

(** ** The renderer *)

Module RendererMore.
Import Renderer.

Lemma skipn_nth_error {A} (l : list A) (i : nat) (x : A) :
  nth_error l i = Some x -> skipn i l = x :: skipn (S i) l.
Proof.
  revert i. induction l as [|h t IH]; intros [|i] H; try discriminate.
  - simpl in H. injection H as ->. reflexivity.
  - simpl in H. cbn [skipn]. rewrite (IH i H). reflexivity.
Qed.

(** The loop places every image when the layout has a slot for each. *)
Lemma place_all (l : list rect) (urls : list string) :
  forall i shown,
    i + List.length urls <= List.length l ->
    place (Some l) i urls shown = (shown ++ positioned urls (skipn i l), None).
Proof.
  induction urls as [|u rest IH]; intros i shown Hlen.
  - simpl. now rewrite app_nil_r.
  - cbn [place]. cbn [List.length] in Hlen.
    destruct (nth_error l i) as [pos|] eqn:E;
      [|apply nth_error_None in E; lia].
    rewrite IH by lia. rewrite (skipn_nth_error l i pos E).
    unfold positioned. cbn [combine map fst snd].
    now rewrite <- app_assoc.
Qed.

(** Every layout of the table entry for N has N slots. *)
Lemma layouts_slots (count : nat) (templates : list (list rect)) (layout : list rect) :
  layouts count = Some templates -> In layout templates ->
  List.length layout = count.
Proof.
  intros H Hin.
  destruct count as [|[|[|[|[|[|c]]]]]]; simpl in H; try discriminate;
    injection H as <-; simpl in Hin;
    repeat (destruct Hin as [<-|Hin]; [reflexivity|]); contradiction.
Qed.

Lemma layouts_defined (count : nat) :
  1 <= count <= 5 -> exists templates, layouts count = Some templates.
Proof.
  intros H. destruct count as [|[|[|[|[|[|c]]]]]]; try lia; eexists; reflexivity.
Qed.

Lemma layouts_undefined (count : nat) : 5 < count -> layouts count = None.
Proof.
  intros H. destruct count as [|[|[|[|[|[|c]]]]]]; try lia. reflexivity.
Qed.

(** One to five images: each is shown on its slot, nothing is thrown. *)
Lemma shows_up_to_five (imageUrls : list string) (random : N) (pg : page) :
  1 <= List.length imageUrls <= 5 ->
  exists layout,
    choose_layout (List.length imageUrls) random = Some layout /\
    List.length layout = List.length imageUrls /\
    fetchAndDisplayImages (Parsed imageUrls) random pg
    = {| container := positioned imageUrls layout; console := console pg |}.
Proof.
  intros Hn. destruct (layouts_defined _ Hn) as [templates Ht].
  destruct (RendererFacts.choose_from templates random
              (RendererFacts.layouts_nonempty _ _ Ht)) as (layout & Hl & Hin).
  pose proof (layouts_slots _ _ _ Ht Hin) as Hslots.
  exists layout. unfold choose_layout, fetchAndDisplayImages, templates_for.
  rewrite Ht. split; [exact Hl|]. split; [exact Hslots|].
  destruct (List.length imageUrls) as [|c] eqn:Ec; [lia|]. cbn [Nat.eqb].
  rewrite Hl, place_all by (rewrite Hslots; simpl; lia).
  reflexivity.
Qed.

(** X11.  A selection of one to five images is shown in full: the
    container is emptied and then holds exactly one image element per
    URL, in the order of the selection, the i-th on the i-th rectangle of
    the chosen layout, which has as many rectangles as there are images;
    nothing is thrown and the console is left as it was. *)
Theorem one_to_five_images_are_all_placed
  (imageUrls : list string) (random : N) (pg : page) :
  1 <= List.length imageUrls <= 5 ->
  exists layout,
    choose_layout (List.length imageUrls) random = Some layout /\
    List.length layout = List.length imageUrls /\
    fetchAndDisplayImages (Parsed imageUrls) random pg
    = {| container := positioned imageUrls layout; console := console pg |}.
Proof.
  intros Hn.
  destruct (shows_up_to_five imageUrls random pg Hn) as (layout & Hc & Hs & Hf).
  exists layout. repeat split; assumption.
Qed.

Lemma one_to_five_images_are_all_placed_witness :
  exists layout,
    choose_layout (List.length ["u1"; "u2"; "u3"]) 8000000000000000 = Some layout /\
    List.length layout = List.length ["u1"; "u2"; "u3"] /\
    fetchAndDisplayImages (Parsed ["u1"; "u2"; "u3"]) 8000000000000000 (view loaded)
    = {| container := positioned ["u1"; "u2"; "u3"] layout;
         console := console (view loaded) |}.
Proof.
  apply (one_to_five_images_are_all_placed ["u1"; "u2"; "u3"] 8000000000000000
           (view loaded)).
  simpl. lia.
Defined.

(** X12.  A selection of more than five images falls back to the
    one-slot layout: only the first image is shown, full screen; reading
    the slot of the second one throws, the error goes to the console and
    the other images are dropped. *)
Theorem more_than_five_images_show_only_the_first
  (url : string) (rest : list string) (random : N) (pg : page) :
  5 <= List.length rest ->
  fetchAndDisplayImages (Parsed (url :: rest)) random pg
  = {| container := [Image url (R "0%" "0%" "100%" "100%")];
       console := console pg ++ [JsTypeError] |}.
Proof.
  intros Hn. unfold fetchAndDisplayImages, templates_for.
  cbn [List.length Nat.eqb].
  rewrite (layouts_undefined (S (List.length rest))) by lia.
  cbn [layouts List.length].
  assert (H0 : random_index random 1 = 0).
  { pose proof (RendererFacts.random_index_lt random 1). lia. }
  rewrite H0. destruct rest as [|u2 rest']; [simpl in Hn; lia|].
  reflexivity.
Qed.

Lemma more_than_five_images_show_only_the_first_witness :
  fetchAndDisplayImages (Parsed ("u1" :: ["u2"; "u3"; "u4"; "u5"; "u6"]))
    12345 (view loaded)
  = {| container := [Image "u1" (R "0%" "0%" "100%" "100%")];
       console := console (view loaded) ++ [JsTypeError] |}.
Proof.
  apply (more_than_five_images_show_only_the_first "u1"
           ["u2"; "u3"; "u4"; "u5"; "u6"] 12345 (view loaded)).
  simpl. lia.
Defined.

(** X13.  Server and script together: whatever the scan finds and
    whatever is drawn on either side, the script shows the whole answer
    of the list endpoint and throws nothing: the placeholder for the
    empty array, and otherwise one positioned image per URL of the
    answer. *)
Theorem every_answer_is_shown_in_full
  (fs : filesystem) (app : application) (d : string) (w w' : world)
  (urls : list string) (random : N) (pg : page) (fuel : nat) :
  wf_node (fs_root fs) = true ->
  IMAGE_DIR app = Some d ->
  dispatch (random_images fuel fs app) w = (Reply 200 (JsonArray urls), w') ->
  let pg' := fetchAndDisplayImages (Parsed urls) random pg in
  console pg' = console pg /\
  (urls = [] -> container pg' = [no_images]) /\
  (urls <> [] ->
   exists layout,
     List.length layout = List.length urls /\
     container pg' = positioned urls layout).
Proof.
  intros Hwf Hdir Hans pg'.
  destruct (random_images_answer fuel fs app d w Hwf Hdir)
    as (images & w1 & _ & _ & [(w'' & E & _)|(selected & w'' & E & _ & H5 & _)]);
    rewrite E in Hans; [discriminate|].
  injection Hans as <- _.
  destruct (map (url_for app) selected) as [|u l] eqn:Eu.
  - split; [reflexivity|]. split; [reflexivity|congruence].
  - assert (Hn : 1 <= List.length (u :: l) <= 5).
    { rewrite <- Eu, length_map. split; [|exact H5].
      destruct selected; [discriminate|simpl; lia]. }
    destruct (shows_up_to_five (u :: l) random pg Hn) as (layout & _ & Hs & Hf).
    unfold pg'. rewrite Hf.
    split; [reflexivity|]. split; [discriminate|].
    intros _. now exists layout.
Qed.

Lemma every_answer_is_shown_in_full_witness :
  let urls := ["http://localhost:5000/images/trip/b.jpg";
               "http://localhost:5000/images/trip/c.webp";
               "http://localhost:5000/images/a.PNG";
               "http://localhost:5000/images/d.gif"] in
  let pg' := fetchAndDisplayImages (Parsed urls) 42 (view loaded) in
  console pg' = console (view loaded) /\
  (urls = [] -> container pg' = [no_images]) /\
  (urls <> [] ->
   exists layout,
     List.length layout = List.length urls /\
     container pg' = positioned urls layout).
Proof.
  apply (every_answer_is_shown_in_full sample_fs sample_app "/srv/pics" sample_world
           {| draws := fun i => draws sample_world (S (S (S (S (S i)))));
              log := [(INFO, FoundImages 4 (Some "/srv/pics"))] |} _ _ _ 0);
    reflexivity.
Defined.

End RendererMore.
